(** * dota2_hero: hero records, filtering, the page/feed cache and its
      on-disk snapshot

    A shallow embedding of [dota2_hero.py].  Python values are modelled by
    Rocq data (strings, lists, options, records), the three module globals
    by a record threaded through a state-and-exception monad, and the
    libraries the module calls (requests, BeautifulSoup, json, the file
    system) by a small document model plus a class of collaborators. *)

From Stdlib Require Import String Ascii List Bool Arith Lia.
From stdpp Require Import base option strings list gmap sets sorting.

Import ListNotations.
Local Open Scope string_scope.
Local Open Scope list_scope.
Set Warnings "-register-all".

(** ** Hero records (class [Hero]) *)

Module HeroModel.

(** [attr] is [None] or one of the attribute names: [get_hero_info] leaves
    it at Python's [None] when no column is recognised. *)
Record Hero := mkHero {
  name : string;
  icon : string;
  attr : option string;
  faction : string;
  bio : string;
  roles : list string;
  attack : string;
  key : string
}.

(** [Hero.__str__] *)
Definition Hero_str (h : Hero) : string :=
  name h ++ " (" ++ key h ++ ")".

End HeroModel.
Export HeroModel.

(** ** The filter engine ([find_heroes], [find_first_hero]) *)

Module Filter.

Section Criteria.

(** The keyword arguments of [find_heroes]; [None] is Python's [None]. *)
Variables (name_c : string) (attribute : option string).
Variables (role : option (list string)) (attack_c : option string).

Definition match_name (test : Hero) : bool :=
  bool_decide (name_c = "") || bool_decide (name test = name_c)
  || bool_decide (key test = name_c).

Definition match_attr (test : Hero) : bool :=
  match attribute with
  | None => true
  | Some a => bool_decide (attr test = Some a)
  end.

(** [frozenset(test.roles).issuperset(frozenset(role))] *)
Definition match_role (test : Hero) : bool :=
  match role with
  | None => true
  | Some r =>
      bool_decide ((list_to_set r : gset string) ⊆ list_to_set (roles test))
  end.

Definition match_attack (test : Hero) : bool :=
  match attack_c with
  | None => true
  | Some a => bool_decide (attack test = a)
  end.

Definition find_heroes (hlist : list Hero) : list Hero :=
  List.filter match_name
    (List.filter match_attr
       (List.filter match_attack
          (List.filter match_role hlist))).

(** [find_first_hero]: [None] when the list of matches is empty. *)
Definition find_first_hero (hlist : list Hero) : option Hero :=
  match find_heroes hlist with
  | [] => None
  | h :: _ => Some h
  end.

(** The criteria as the specification words them: a record qualifies when
    every supplied criterion holds of it. *)
Definition meets_criteria (h : Hero) : Prop :=
  (name_c = "" ∨ name_c = name h ∨ name_c = key h)
  ∧ (attribute = None ∨ attribute = attr h)
  ∧ match role with
    | None => True
    | Some r => r ⊆ roles h
    end
  ∧ (attack_c = None ∨ attack_c = Some (attack h)).

#[global] Instance meets_criteria_dec h : Decision (meets_criteria h).
Proof. unfold meets_criteria. destruct role; apply _. Defined.

End Criteria.

End Filter.
Export Filter.

(** ** Parsed documents (the part of BeautifulSoup the module relies on) *)

Module Soup.

(** A parsed element.  The parser turns the multi-valued [class] attribute
    into a list of strings and the other attributes used here ([id],
    [src]) into strings, so a tag carries the string-valued attributes in
    [attrs] and its class list, when it has a class attribute, in
    [class_]. *)
Inductive node :=
| Tag (tag_name : string) (attrs : list (string * string))
      (class_ : option (list string)) (contents : list node)
| NavigableString (s : string)
| Comment (s : string).

(** The contents of a [BeautifulSoup] object. *)
Definition soup := list node.

(** The [BeautifulSoup] object itself, seen as an element: a tag named
    [[document]] without attributes. *)
Definition document (d : soup) : node := Tag "[document]" [] None d.

(** An element of a document is named by the child indices leading to it
    from the [BeautifulSoup] object; [[]] is that object. *)
Definition path := list nat.

Fixpoint node_at (n : node) (p : path) : option node :=
  match p with
  | [] => Some n
  | i :: q =>
      match n with
      | Tag _ _ _ cs =>
          match cs !! i with
          | Some c => node_at c q
          | None => None
          end
      | _ => None
      end
  end.

(** [element.parent]; the [BeautifulSoup] object has none. *)
Definition parent (p : path) : option path :=
  match p with
  | [] => None
  | _ => Some (removelast p)
  end.

(** Document order: an element, then its children's subtrees in turn. *)
Fixpoint walk (here : path) (n : node) : list (path * node) :=
  (here, n) ::
  match n with
  | Tag _ _ _ cs =>
      (fix kids (i : nat) (l : list node) : list (path * node) :=
         match l with
         | [] => []
         | c :: l' => walk (here ++ [i]) c ++ kids (S i) l'
         end) 0 cs
  | _ => []
  end.

Fixpoint walk_kids (here : path) (i : nat) (l : list node)
  : list (path * node) :=
  match l with
  | [] => []
  | c :: l' => walk (here ++ [i]) c ++ walk_kids here (S i) l'
  end.

(** [element.descendants] *)
Definition descendants_of (here : path) (n : node) : list (path * node) :=
  match n with
  | Tag _ _ _ cs => walk_kids here 0 cs
  | _ => []
  end.

Definition descendants (d : soup) : list (path * node) :=
  walk_kids [] 0 d.

(** [page.find_all(f)] for a function [f] on tags, and [page.find]. *)
Definition find_all (f : node → bool) (d : soup) : list (path * node) :=
  List.filter (λ pn, f (snd pn)) (descendants d).

Definition find (f : node → bool) (d : soup) : option (path * node) :=
  head (find_all f d).

(** [dict.get]: the first binding of a key. *)
Fixpoint dict_get {V} (k : string) (d : list (string * V)) : option V :=
  match d with
  | [] => None
  | (k', v) :: d' => if bool_decide (k' = k) then Some v else dict_get k d'
  end.

(** Equality of two dicts: the same value, or absence, under every key. *)
Definition dict_eqb (a b : list (string * string)) : bool :=
  forallb (λ k, bool_decide (dict_get k a = dict_get k b))
          (map fst a ++ map fst b).

(** [Tag.__eq__]: same name, same attributes and pairwise equal contents;
    two strings compare by their text, comments included. *)
Fixpoint py_eq (a b : node) : bool :=
  match a, b with
  | Tag n1 at1 c1 k1, Tag n2 at2 c2 k2 =>
      bool_decide (n1 = n2) && dict_eqb at1 at2 && bool_decide (c1 = c2)
      && (fix all2 (l1 l2 : list node) : bool :=
            match l1, l2 with
            | [], [] => true
            | x :: l1', y :: l2' => py_eq x y && all2 l1' l2'
            | _, _ => false
            end) k1 k2
  | NavigableString s1, NavigableString s2
  | NavigableString s1, Comment s2
  | Comment s1, NavigableString s2
  | Comment s1, Comment s2 => bool_decide (s1 = s2)
  | _, _ => false
  end.

Fixpoint py_eq_list (l1 l2 : list node) : bool :=
  match l1, l2 with
  | [], [] => true
  | x :: l1', y :: l2' => py_eq x y && py_eq_list l1' l2'
  | _, _ => false
  end.

(** [x in s] on strings. *)
Fixpoint contains (needle hay : string) : bool :=
  String.prefix needle hay ||
  match hay with
  | EmptyString => false
  | String _ t => contains needle t
  end.

(** A tag filter by name and class list, as [find(name, classes)] builds
    it: the tag has the name and one of its classes is among [classes]; a
    tag without a class attribute passes only an empty [classes]. *)
Definition name_class_filter (nm : string) (classes : list string)
    (n : node) : bool :=
  match n with
  | Tag nm' _ c _ =>
      bool_decide (nm' = nm) &&
      match c with
      | None => bool_decide (classes = [])
      | Some m => existsb (λ item, bool_decide (item ∈ classes)) m
      end
  | _ => false
  end.

Definition named (nm : string) (n : node) : bool :=
  match n with
  | Tag nm' _ _ _ => bool_decide (nm' = nm)
  | _ => false
  end.

(** [tag.img]: the first descendant tag named [img]. *)
Definition first_child_named (nm : string) (n : node) : option node :=
  snd <$> head (List.filter (λ pn, named nm (snd pn)) (descendants_of [] n)).

(** The comments of a document, in document order. *)
Fixpoint comments (n : node) : list string :=
  match n with
  | Tag _ _ _ cs => List.flat_map comments cs
  | NavigableString _ => []
  | Comment s => [s]
  end.

Definition soup_comments (d : soup) : list string :=
  List.flat_map comments d.

(** [page.head.append(new)]: the first tag named [head], in document
    order, receives the nodes of [new] after its last child; [None] when
    the document has no such tag ([page.head] is [None]). *)
Fixpoint append_in (new : list node) (n : node) : option node :=
  match n with
  | Tag nm ats c cs =>
      if bool_decide (nm = "head") then Some (Tag nm ats c (cs ++ new))
      else
        Tag nm ats c <$>
        (fix first (l : list node) : option (list node) :=
           match l with
           | [] => None
           | x :: l' =>
               match append_in new x with
               | Some x' => Some (x' :: l')
               | None => cons x <$> first l'
               end
           end) cs
  | _ => None
  end.

Fixpoint head_append (new : list node) (d : soup) : option soup :=
  match d with
  | [] => None
  | x :: d' =>
      match append_in new x with
      | Some x' => Some (x' :: d')
      | None => cons x <$> head_append new d'
      end
  end.

End Soup.
Export Soup.

(** ** The JSON feed *)

Module Feed.

(** One hero object of the feed, with the fields [get_all_heroes] reads. *)
Record entry := mkEntry {
  name : string;
  bio : string;
  roles_l : list string;
  atk_l : string
}.

(** The feed: hero key to hero object, in the order of [keys()]. *)
Definition json := list (string * entry).

End Feed.

(** ** Exceptions and results *)

Module Py.

Inductive exn :=
| IndexError | KeyError | TypeError | AttributeError | IOError | ValueError.

(** [issubclass(e, LookupError)] *)
Definition is_LookupError (e : exn) : bool :=
  match e with
  | IndexError | KeyError => true
  | _ => false
  end.

Inductive outcome (A : Type) :=
| Return (a : A)
| Raise (e : exn).

Arguments Return {A} a.
Arguments Raise {A} e.

(** [s.split(sep)] for a one-character separator. *)
Fixpoint split_on (sep : ascii) (s : string) : list string :=
  match s with
  | EmptyString => [EmptyString]
  | String c t =>
      if Ascii.eqb c sep then EmptyString :: split_on sep t
      else match split_on sep t with
           | x :: r => String c x :: r
           | [] => [String c EmptyString]
           end
  end.

End Py.
Export Py.

(** ** Collaborators: network, parser, serialisers *)

(** What the module gets from [requests], [bs4] and [json].  [text] is
    what a file holds; a request is a function of its URL. *)
Class Collaborators := {
  text : Type;
  requests_get_text : string → string;
  requests_get_json : string → Feed.json;
  BeautifulSoup : string → soup;
  BeautifulSoup_file : text → soup;
  prettify : soup → text;
  json_dumps : Feed.json → text;
  json_loads : text → option Feed.json
}.

(** ** The module state and the operations on it *)

Module Cache.

Section WithCollaborators.

Context `{Collaborators}.

(** A file is there but cannot be opened, or is a regular file holding
    what was written to it since it was last truncated. *)
Inductive file :=
| Locked
| Regular (data : option text).

(** The three globals, and the world around them: the requests issued so
    far (oldest first), the files, and what was printed. *)
Record world := mkWorld {
  _cached_json : option Feed.json;
  _cached_bs_page : option soup;
  _cached_language : string;
  requests_log : list string;
  disk : gmap string file;
  stdout : list string
}.

Definition set_json (j : option Feed.json) (w : world) : world :=
  mkWorld j (_cached_bs_page w) (_cached_language w) (requests_log w)
          (disk w) (stdout w).

Definition set_bs_page (p : option soup) (w : world) : world :=
  mkWorld (_cached_json w) p (_cached_language w) (requests_log w)
          (disk w) (stdout w).

Definition set_cached_language (l : string) (w : world) : world :=
  mkWorld (_cached_json w) (_cached_bs_page w) l (requests_log w)
          (disk w) (stdout w).

Definition log_request (url : string) (w : world) : world :=
  mkWorld (_cached_json w) (_cached_bs_page w) (_cached_language w)
          (requests_log w ++ [url]) (disk w) (stdout w).

Definition set_disk (d : gmap string file) (w : world) : world :=
  mkWorld (_cached_json w) (_cached_bs_page w) (_cached_language w)
          (requests_log w) d (stdout w).

Definition print_line (s : string) (w : world) : world :=
  mkWorld (_cached_json w) (_cached_bs_page w) (_cached_language w)
          (requests_log w) (disk w) (stdout w ++ [s]).

(** A computation runs in a world and returns or raises, leaving a world
    behind either way. *)
Definition M (A : Type) : Type := world → outcome A * world.

Definition ret {A} (a : A) : M A := λ w, (Return a, w).

Definition bind {A B} (m : M A) (k : A → M B) : M B :=
  λ w, match m w with
       | (Return a, w') => k a w'
       | (Raise e, w') => (Raise e, w')
       end.

Definition raise {A} (e : exn) : M A := λ w, (Raise e, w).

Definition gets {A} (f : world → A) : M A := λ w, (Return (f w), w).

Definition modify (f : world → world) : M unit := λ w, (Return tt, f w).

(** [try: body  except IOError: handler] *)
Definition except_IOError (body handler : M unit) : M unit :=
  λ w, match body w with
       | (Raise IOError, w') => handler w'
       | r => r
       end.

#[global] Instance M_ret : MRet M := @ret.
#[global] Instance M_bind : MBind M := λ A B k m, bind m k.

(** *** Requests *)

Definition default_url : string := "http://www.dota2.com/heroes/".
Definition default_json_url : string :=
  "http://www.dota2.com/jsfeed/heropickerdata".

Definition http_text (url : string) : M string :=
  modify (log_request url);; ret (requests_get_text url).

Definition http_json (url : string) : M Feed.json :=
  modify (log_request url);; ret (requests_get_json url).

(** *** [get_web_page], [get_json_list], [set_language] *)

Definition get_web_page (url lang : string) : M soup :=
  cached_language ← gets _cached_language;
  page ← gets _cached_bs_page;
  let fetch : M soup :=
    raw ← http_text (url ++ "?l=" ++ lang);
    modify (set_bs_page (Some (BeautifulSoup raw)));;
    ret (BeautifulSoup raw) in
  match page with
  | None => fetch
  | Some p =>
      if bool_decide (lang ≠ "") && bool_decide (cached_language ≠ lang)
      then fetch else ret p
  end.

Definition get_json_list (url lang : string) : M Feed.json :=
  cached_language ← gets _cached_language;
  js ← gets _cached_json;
  let fetch : M Feed.json :=
    j ← http_json (url ++ "?l=" ++ lang);
    modify (set_json (Some j));;
    ret j in
  match js with
  | None => fetch
  | Some j =>
      if bool_decide (lang ≠ "") && bool_decide (cached_language ≠ lang)
      then fetch else ret j
  end.

Definition set_language (lang : string) : M unit :=
  cached_language ← gets _cached_language;
  if bool_decide (cached_language ≠ lang) then
    modify (set_cached_language lang);;
    get_web_page default_url lang;;
    get_json_list default_json_url lang;;
    ret tt
  else ret tt.

End WithCollaborators.

End Cache.
Export Cache.

(** ** The merger ([get_hero_info], [get_all_heroes]) *)

Module Merger.

Section WithCollaborators.

Context `{Collaborators}.

(** The inner function [matches_hero] of [get_hero_info]. *)
Definition matches_hero (heroName : string) (tag : node) : bool :=
  match tag with
  | Tag nm ats _ _ =>
      bool_decide (nm = "a") &&
      match dict_get "id" ats with
      | Some id => contains heroName id
      | None => false
      end
  | _ => false
  end.

(** [hero_tag.parent.parent]: [None] for a tag directly under the
    [BeautifulSoup] object. *)
Definition grandparent (p : path) : option path :=
  parent p ≫= parent.

(** [tag["class"]] *)
Definition class_of (n : node) : option (list string) :=
  match n with
  | Tag _ _ c _ => c
  | _ => None
  end.

(** [tag[k]] for a string-valued attribute. *)
Definition attr_of (k : string) (n : node) : option string :=
  match n with
  | Tag _ ats _ _ => dict_get k ats
  | _ => None
  end.

(** The attribute chosen by the [if]/[elif] chain on the class list. *)
Definition attribute_of_classes (classes : list string) : option string :=
  if bool_decide ("heroColLeft" ∈ classes) then Some "Strength"
  else if bool_decide ("heroColMiddle" ∈ classes) then Some "Agility"
  else if bool_decide ("heroColRight" ∈ classes) then Some "Intelligence"
  else None.

(** The faction test: the grandparent compared, with [==], to the result
    of [page.find("div", classes)], which is [None] when no tag passes. *)
Definition faction_of (page : soup) (section : node)
    (classes : list string) : string :=
  match find (name_class_filter "div" classes) page with
  | Some (_, first) => if py_eq section first then "Radiant" else "Dire"
  | None => "Dire"
  end.

(** The part of [get_hero_info] after the page is at hand. *)
Definition hero_info_in (page : soup) (heroName : string)
  : outcome (string * option string * string) :=
  match find_all (matches_hero heroName) page with
  | [] => Raise IndexError
  | (hero_path, hero_tag) :: _ =>
      match first_child_named "img" hero_tag with
      | None => Raise TypeError
      | Some img =>
          match attr_of "src" img with
          | None => Raise KeyError
          | Some img_src =>
              match grandparent hero_path with
              | None => Raise TypeError
              | Some g =>
                  match node_at (document page) g with
                  | None => Raise TypeError
                  | Some section =>
                      match class_of section with
                      | None => Raise KeyError
                      | Some classes =>
                          Return (img_src, attribute_of_classes classes,
                                  faction_of page section classes)
                      end
                  end
              end
          end
      end
  end.

Definition get_hero_info (heroName : string)
  : M (string * option string * string) :=
  page ← get_web_page default_url "";
  match hero_info_in page heroName with
  | Return r => ret r
  | Raise e => raise e
  end.

(** The loop of the generator over the keys still to visit: the records
    yielded, and the exception that ended the iteration, if one did. *)
Fixpoint heroes_from (jsonObj : Feed.json) (jsonKeys : list string)
    (w : world) : (list Hero * option exn) * world :=
  match jsonKeys with
  | [] => (([], None), w)
  | key :: rest =>
      match dict_get key jsonObj with
      | None => (([], Some KeyError), w)
      | Some H =>
          match get_hero_info key w with
          | (Raise e, w') => (([], Some e), w')
          | (Return (icon, attribute, faction), w') =>
              let '((hs, r), w'') := heroes_from jsonObj rest w' in
              ((mkHero (Feed.name H) icon attribute faction (Feed.bio H)
                       (Feed.roles_l H) (Feed.atk_l H) key :: hs, r), w'')
          end
      end
  end.

Definition get_all_heroes (w : world) : (list Hero * option exn) * world :=
  match get_json_list default_json_url "" w with
  | (Return jsonObj, w') => heroes_from jsonObj (map fst jsonObj) w'
  | (Raise e, w') => (([], Some e), w')
  end.

End WithCollaborators.

End Merger.
Export Merger.

(** ** The disk snapshot ([write_disk_cache], [read_disk_cache]) *)

Module Snapshot.

Section WithCollaborators.

Context `{Collaborators}.

(** [open(path, "r")]: the data of a regular file. *)
Definition open_r (path : string) : M (option text) :=
  fs ← gets disk;
  match fs !! path with
  | Some (Regular data) => ret data
  | _ => raise IOError
  end.

(** [open(path, "w")]: creates or truncates the file. *)
Definition open_w (path : string) : M unit :=
  fs ← gets disk;
  match fs !! path with
  | Some Locked => raise IOError
  | _ => modify (set_disk (<[path := Regular None]> fs))
  end.

(** [f.write(data)] on a file just truncated. *)
Definition file_write (path : string) (data : text) : M unit :=
  fs ← gets disk;
  modify (set_disk (<[path := Regular (Some data)]> fs)).

(** The markup of the language marker. *)
Definition language_markup (lang : string) : string :=
  "<!--LANGUAGE=" ++ lang ++ "-->".

(** The cached page object is the one that is appended to, so the cache
    sees the new comment.  When both paths are the same file the model
    keeps what was written last. *)
Definition write_disk_cache (jspath webpath : string) : M unit :=
  open_w jspath;;
  open_w webpath;;
  JSON ← get_json_list default_json_url "";
  BS_page ← get_web_page default_url "";
  lang ← gets _cached_language;
  match head_append (BeautifulSoup (language_markup lang)) BS_page with
  | None => raise AttributeError
  | Some page' =>
      modify (set_bs_page (Some page'));;
      file_write jspath (json_dumps JSON);;
      file_write webpath (prettify page')
  end.

(** The test of the [find(text=...)] call. *)
Definition is_language_comment (t : string) : bool :=
  bool_decide (substring 0 9 t = "LANGUAGE=").

Definition find_language_comment (page : soup) : option string :=
  List.find is_language_comment (soup_comments page).

(** [json.loads(jsfile.read())]; an empty file is not JSON. *)
Definition load_json (data : option text) : M Feed.json :=
  match data ≫= json_loads with
  | Some j => ret j
  | None => raise ValueError
  end.

(** [BeautifulSoup(webfile)] *)
Definition load_page (data : option text) : soup :=
  match data with
  | Some t => BeautifulSoup_file t
  | None => BeautifulSoup ""
  end.

Definition read_disk_cache (jspath webpath : string) : M unit :=
  modify (set_cached_language "");;
  except_IOError
    (jsfile ← open_r jspath;
     webfile ← open_r webpath;
     tmp_json ← load_json jsfile;
     let tmp_page := load_page webfile in
     modify (set_json (Some tmp_json));;
     modify (set_bs_page (Some tmp_page));;
     match find_language_comment tmp_page with
     | None => raise AttributeError
     | Some l =>
         match split_on "="%char l !! 1%nat with
         | Some lang => modify (set_cached_language lang)
         | None => raise IndexError
         end
     end)
    (modify (print_line "Could not load from disk.")).

End WithCollaborators.

End Snapshot.
Export Snapshot.

(** ** Notions used to state the properties *)

Module Notions.

Section WithCollaborators.

Context `{Collaborators}.

(** The page [get_web_page()] hands out in a world: the cached one, or
    the default-language page it fetches when nothing is cached. *)
Definition page_of (w : world) : soup :=
  match _cached_bs_page w with
  | Some p => p
  | None => BeautifulSoup (requests_get_text (default_url ++ "?l="))
  end.

(** The feed [get_json_list()] hands out in a world. *)
Definition feed_of (w : world) : Feed.json :=
  match _cached_json w with
  | Some j => j
  | None => requests_get_json (default_json_url ++ "?l=")
  end.

(** The world [get_web_page()] leaves behind. *)
Definition after_page (w : world) : world :=
  snd (get_web_page default_url "" w).

(** [n] calls of [write_disk_cache] in a row. *)
Fixpoint saves (n : nat) (jspath webpath : string) : M unit :=
  match n with
  | 0 => ret tt
  | S n' => write_disk_cache jspath webpath;; saves n' jspath webpath
  end.

(** A file that [open(path, "r")] opens. *)
Definition readable (fs : gmap string file) (path : string) : Prop :=
  ∃ data, fs !! path = Some (Regular data).

(** A path that [open(path, "w")] opens. *)
Definition writable (fs : gmap string file) (path : string) : Prop :=
  fs !! path ≠ Some Locked.

(** A cache with nothing in it, in front of the given files. *)
Definition fresh (fs : gmap string file) : world :=
  mkWorld None None "" [] fs [].

(** Reading page and feed in the default language, then switching to
    french. *)
Definition default_then_french : M unit :=
  get_web_page default_url "";;
  get_json_list default_json_url "";;
  set_language "french".

End WithCollaborators.

(** The comment that marks language [lang]. *)
Definition marker (lang : string) : node := Comment ("LANGUAGE=" ++ lang).

(** [n] markers appended to the head, one after the other. *)
Fixpoint append_markers (n : nat) (lang : string) (page : soup)
  : option soup :=
  match n with
  | 0 => Some page
  | S n' => head_append [marker lang] page ≫= append_markers n' lang
  end.

(** How many language markers a document holds. *)
Definition marker_count (page : soup) : nat :=
  length (List.filter is_language_comment (soup_comments page)).

(** [c in s] for a character. *)
Fixpoint mentions (c : ascii) (s : string) : bool :=
  match s with
  | EmptyString => false
  | String c' t => Ascii.eqb c' c || mentions c t
  end.

(** The section at [g] is the first [div], in page order, that shares a
    class with [classes]. *)
Definition first_such_section (page : soup) (classes : list string)
    (g : path) : Prop :=
  ∃ n rest, find_all (name_class_filter "div" classes) page = (g, n) :: rest.

(** Page order on elements: an element comes before its descendants, and
    before whatever follows it among the children of an ancestor. *)
Fixpoint before (p q : path) : Prop :=
  match p, q with
  | [], [] => False
  | [], _ :: _ => True
  | _ :: _, [] => False
  | i :: p', j :: q' => i < j ∨ (i = j ∧ before p' q')
  end.

(** Two elements of a walk are compared by their paths. *)
Definition earlier (a b : path * node) : Prop := before (fst a) (fst b).

(** The number of nodes of a subtree. *)
Fixpoint size (n : node) : nat :=
  match n with
  | Tag _ _ _ cs => S (list_sum (map size cs))
  | _ => 1
  end.

End Notions.
Export Notions.

(** ** A reference set of collaborators

    Files hold the value that was serialised, the parser of markup
    strings reads a leading comment and keeps the rest as text, and a
    request is answered with its own URL. *)

Module Reference.

Inductive file_data :=
| JsonData (j : Feed.json)
| PageData (d : soup).

(** Splits at the first comment terminator. *)
Fixpoint until_close (s : string) : option (string * string) :=
  if String.prefix "-->" s then Some ("", substring 3 (String.length s) s)
  else match s with
       | EmptyString => None
       | String c t =>
           match until_close t with
           | Some (body, rest) => Some (String c body, rest)
           | None => None
           end
       end.

Definition text_node (s : string) : soup :=
  if bool_decide (s = "") then [] else [NavigableString s].

Definition parse_markup (s : string) : soup :=
  if String.prefix "<!--" s then
    match until_close (substring 4 (String.length s) s) with
    | Some (body, rest) => Comment body :: text_node rest
    | None => [Comment (substring 4 (String.length s) s)]
    end
  else text_node s.

#[global] Instance collaborators : Collaborators := {|
  text := file_data;
  requests_get_text := λ url, url;
  requests_get_json := λ url, [(url, Feed.mkEntry url "" [] "")];
  BeautifulSoup := parse_markup;
  BeautifulSoup_file :=
    λ t, match t with PageData d => d | JsonData _ => [] end;
  prettify := PageData;
  json_dumps := JsonData;
  json_loads := λ t, match t with JsonData j => Some j | PageData _ => None end
|}.

End Reference.

(** ** Python string methods used by the rest of the module

    A character is a code point below 256. *)

Module PyStr.

(** [c.isspace()] *)
Definition isspace (c : ascii) : bool :=
  let n := nat_of_ascii c in
  ((9 <=? n) && (n <=? 13) || (28 <=? n) && (n <=? 32)
   || (n =? 133) || (n =? 160))%nat.

(** [s.lstrip()] *)
Fixpoint lstrip (s : string) : string :=
  match s with
  | EmptyString => EmptyString
  | String c t => if isspace c then lstrip t else s
  end.

(** [s.rstrip()] *)
Fixpoint rstrip (s : string) : string :=
  match s with
  | EmptyString => EmptyString
  | String c t =>
      match rstrip t with
      | EmptyString => if isspace c then EmptyString else String c EmptyString
      | t' => String c t'
      end
  end.

(** [s.split()]: the maximal runs of characters that are not whitespace. *)
Fixpoint split_ws (s : string) : list string :=
  match s with
  | EmptyString => []
  | String c t =>
      if isspace c then split_ws t
      else
        match t with
        | EmptyString => [String c EmptyString]
        | String c' _ =>
            if isspace c' then String c EmptyString :: split_ws t
            else match split_ws t with
                 | w :: ws => String c w :: ws
                 | [] => [String c EmptyString]
                 end
        end
  end.

(** [s.replace(a, b)] for one-character [a] and [b]. *)
Fixpoint replace_char (a b : ascii) (s : string) : string :=
  match s with
  | EmptyString => EmptyString
  | String c t =>
      String (if Ascii.eqb c a then b else c) (replace_char a b t)
  end.

(** [s[n:]] *)
Fixpoint drop_chars (n : nat) (s : string) : string :=
  match n, s with
  | 0, _ => s
  | S _, EmptyString => EmptyString
  | S n', String _ t => drop_chars n' t
  end.

(** The first and the last character of a string, if it has one. *)
Definition first_char (s : string) : option ascii :=
  match s with
  | EmptyString => None
  | String c _ => Some c
  end.

Fixpoint last_char (s : string) : option ascii :=
  match s with
  | EmptyString => None
  | String c EmptyString => Some c
  | String _ t => last_char t
  end.

Definition tab : string := String (ascii_of_nat 9) EmptyString.
Definition newline : string := String (ascii_of_nat 10) EmptyString.

End PyStr.
Export PyStr.

(** ** [Hero.info] and [get_languages] *)

Module Text.

(** [Hero.info]: an unset attribute is formatted as [None]. *)
Definition info (h : Hero) : string :=
  (name h ++ " - " ++ faction h ++ "/"
   ++ match attr h with Some a => a | None => "None" end
   ++ "/" ++ attack h ++ " - " ++ String.concat ", " (roles h))%string.

(** [tag.string]: the only child when it is a string, the [string] of the
    only child when it is a tag, [None] otherwise. *)
Fixpoint string_of (n : node) : option string :=
  match n with
  | Tag _ _ _ cs =>
      match cs with
      | [c] => string_of c
      | _ => None
      end
  | NavigableString s => Some s
  | Comment s => Some s
  end.

(** One element of the list comprehension of [get_languages]. *)
Definition language_item (tag : node) : outcome (string * string) :=
  match string_of tag with
  | None => Raise AttributeError
  | Some s =>
      match attr_of "href" tag with
      | None => Raise KeyError
      | Some href => Return (rstrip (lstrip s), drop_chars 2 href)
      end
  end.

(** A list comprehension: the first element that raises ends it. *)
Fixpoint comprehension {A B} (f : A → outcome B) (l : list A)
  : outcome (list B) :=
  match l with
  | [] => Return []
  | x :: l' =>
      match f x with
      | Raise e => Raise e
      | Return y =>
          match comprehension f l' with
          | Raise e => Raise e
          | Return ys => Return (y :: ys)
          end
      end
  end.

(** [page.find_all("a", "languageItem")] *)
Definition lang_tags (page : soup) : list node :=
  snd <$> find_all (name_class_filter "a" ["languageItem"]) page.

Section WithCollaborators.

Context `{Collaborators}.

Definition get_languages : M (list (string * string)) :=
  page ← get_web_page default_url "";
  match comprehension language_item (lang_tags page) with
  | Return r => ret r
  | Raise e => raise e
  end.

End WithCollaborators.

End Text.
Export Text.

(** ** The interactive browser and the program *)

Module Shell.

(** [d[k] = v] on a dict: an existing key keeps its place. *)
Fixpoint dict_set {V} (k : string) (v : V) (d : list (string * V))
  : list (string * V) :=
  match d with
  | [] => [(k, v)]
  | (k', v') :: d' =>
      if bool_decide (k' = k) then (k, v) :: d'
      else (k', v') :: dict_set k v d'
  end.

(** The dict comprehension of the [find] command over the tokens, which
    already have their underscores replaced: [t.split('=')[0]] is the
    key, [t.split('=')[1]] the value. *)
Fixpoint find_args (tokens : list string) (args : list (string * string))
  : outcome (list (string * string)) :=
  match tokens with
  | [] => Return args
  | t :: rest =>
      match split_on "="%char t !! 0%nat, split_on "="%char t !! 1%nat with
      | Some k, Some v => find_args rest (dict_set k v args)
      | _, _ => Raise IndexError
      end
  end.

(** [find_heroes(heroes, **args)], the value under [role] being split at
    the commas first: a keyword that is not a parameter of [find_heroes],
    or that is [hlist], is a [TypeError]. *)
Definition find_heroes_kwargs (heroes : list Hero)
    (args : list (string * string)) : outcome (list Hero) :=
  if forallb (λ kv, bool_decide
                      (fst kv ∈ ["name"; "attribute"; "role"; "attack"]))
             args
  then Return (find_heroes (default "" (dict_get "name" args))
                           (dict_get "attribute" args)
                           (split_on ","%char <$> dict_get "role" args)
                           (dict_get "attack" args) heroes)
  else Raise TypeError.

(** The tokens of a [find] line: [line.split(" ")[1:]], underscores
    replaced by spaces. *)
Definition find_tokens (line : string) : list string :=
  replace_char "_" " " <$> tail (split_on " "%char line).

Definition command_text : string :=
  ("  list" ++ tab ++ ":" ++ tab
   ++ "Gives a list of all the heroes' names." ++ newline
   ++ "  bio" ++ tab ++ ":" ++ tab
   ++ "Gives the bio for a particular hero." ++ newline
   ++ "  find" ++ tab ++ ":" ++ tab
   ++ "Gives a list of heroes matching a set of criteria." ++ newline
   ++ "  info" ++ tab ++ ":" ++ tab ++ "Gives a summary of a hero." ++ newline
   ++ "  " ++ newline
   ++ "  Examples:" ++ newline
   ++ "            find role=Carry,Durable attribute=Intelligence attack=Ranged"
   ++ newline
   ++ "            bio Windrunner" ++ newline
   ++ "            info naga_siren")%string.

Definition usage_text : string :=
  ("Dota 2 Hero-p" ++ String (ascii_of_nat 195) (String (ascii_of_nat 166) "")
   ++ "dia!" ++ newline
   ++ "Options:" ++ newline
   ++ "    -r    Read data from a cached copy of the webpage. This reduces network traffic."
   ++ newline
   ++ "    -w    Cache the webpage. Uses the current language. This creates two files: cached_list.json and cached_webpage.html."
   ++ newline
   ++ "    -L    List valid languages." ++ newline
   ++ "    -l    Specify the language you want to use. Can be combined with -w, but not with -r (idk why)."
   ++ newline
   ++ "    -h    Show this help." ++ newline)%string.

(** How the program ends: it runs to its last line, calls [exit(0)], or
    dies of an exception nothing catches. *)
Inductive ending :=
| Finished
| Exited
| Uncaught (e : exn).

Section WithCollaborators.

Context `{Collaborators}.

(** [print(s)]; the prompt of [input] is not a [print] and is not
    recorded. *)
Definition print (s : string) : M unit := modify (print_line s).

Fixpoint print_all (l : list string) : M unit :=
  match l with
  | [] => ret tt
  | s :: l' => print s;; print_all l'
  end.

Definition not_found (words : list string) : string :=
  ("Hero " ++ String.concat " " words ++ " not found.")%string.

(** The body of the loop for one line read. *)
Definition handle (heroes : list Hero) (line : string) : M unit :=
  match split_ws line with
  | [] => raise IndexError
  | cmd :: words =>
      if bool_decide (cmd ∈ ["help"; "?"; "HELP"]) then
        print "List of commands:";;
        print command_text
      else if bool_decide (cmd ∈ ["list"; "LIST"; "l"]) then
        print_all (Hero_str <$> heroes)
      else if bool_decide (cmd ∈ ["bio"; "BIO"; "b"]) then
        match find_first_hero (String.concat " " words) None None None
                              heroes with
        | None => print (not_found words)
        | Some h =>
            print (name h);;
            print "--------------------";;
            print (bio h)
        end
      else if bool_decide
                (cmd ∈ ["find"; "search"; "FIND"; "SEARCH"; "f"]) then
        match find_args (find_tokens line) [] with
        | Raise e => raise e
        | Return args =>
            match find_heroes_kwargs heroes args with
            | Raise e => raise e
            | Return found => print_all (Hero_str <$> found)
            end
        end
      else if bool_decide (cmd ∈ ["info"; "INFO"; "i"; "about"]) then
        match find_first_hero (String.concat " " words) None None None
                              heroes with
        | None => print (not_found words)
        | Some h => print (info h)
        end
      else ret tt
  end.

(** The [while] loop: [line] is the line read last, [stdin] the lines
    still to come; reading past the last one is the [EOFError] that the
    [try] catches. *)
Fixpoint browse (heroes : list Hero) (stdin : list string) (line : string)
  : M unit :=
  if bool_decide (line ∈ ["exit"; "quit"]) then ret tt
  else
    match stdin with
    | [] => ret tt
    | next :: rest => handle heroes next;; browse heroes rest next
    end.

(** The [try] statement with its [finally]. *)
Definition shell (heroes : list Hero) (stdin : list string) : M unit :=
  λ w, let '(r, w') := browse heroes stdin "" w in (r, print_line "" w').

Definition default_jspath : string := "cached_list.json".
Definition default_webpath : string := "cached_webpage.html".

(** [sys.argv[sys.argv.index(flag) + 1]] for a flag that is in the list. *)
Fixpoint after_flag (flag : string) (argv : list string) : option string :=
  match argv with
  | [] => None
  | a :: rest => if bool_decide (a = flag) then head rest
                 else after_flag flag rest
  end.

(** Lifts a computation into the program: an exception ends it. *)
Definition step {A} (m : M A) (k : A → world → ending * world)
  : world → ending * world :=
  λ w, match m w with
       | (Return a, w') => k a w'
       | (Raise e, w') => (Uncaught e, w')
       end.

(** The program, from the test of [-h] on. *)
Definition main (argv stdin : list string) : world → ending * world :=
  if bool_decide ("-h" ∈ argv) || bool_decide ("--help" ∈ argv) then
    step (print usage_text) (λ _ w, (Exited, w))
  else
    step (if bool_decide ("-r" ∈ argv)
          then read_disk_cache default_jspath default_webpath
          else ret tt) (λ _,
    if bool_decide ("-L" ∈ argv) then
      step (print "Acceptable languages:") (λ _,
      step get_languages (λ langs,
      step (print_all ((λ hp, fst hp ++ tab ++ "-" ++ tab ++ snd hp)%string
                       <$> langs)) (λ _ w, (Exited, w))))
    else
      step (if bool_decide ("-l" ∈ argv)
            then match after_flag "-l" argv with
                 | Some lang => set_language lang
                 | None => raise IndexError
                 end
            else ret tt) (λ _,
      if bool_decide ("-w" ∈ argv) then
        step (write_disk_cache default_jspath default_webpath)
             (λ _ w, (Exited, w))
      else
        λ w, match get_all_heroes w with
             | ((_, Some e), w') => (Uncaught e, w')
             | ((heroes, None), w') =>
                 step (print "Interactive hero browser!";;
                       print "Type 'exit' to exit.";;
                       shell heroes stdin) (λ _ w, (Finished, w)) w'
             end)).

End WithCollaborators.

End Shell.
Export Shell.

(** ** Runs of several operations *)

Module Runs.

Section WithCollaborators.

Context `{Collaborators}.

(** A save, a switch of language, and a second save. *)
Definition save_switch_save (lang jspath webpath : string) : M unit :=
  write_disk_cache jspath webpath;;
  set_language lang;;
  write_disk_cache jspath webpath.

(** A cache that holds both a page and a feed. *)
Definition warm (w : world) : Prop :=
  is_Some (_cached_bs_page w) ∧ is_Some (_cached_json w).

End WithCollaborators.

(** A record that carries the fields of the feed entry under its key. *)
Definition from_entry (jsonObj : Feed.json) (h : Hero) : Prop :=
  ∃ e, dict_get (key h) jsonObj = Some e
       ∧ name h = Feed.name e ∧ bio h = Feed.bio e
       ∧ roles h = Feed.roles_l e ∧ attack h = Feed.atk_l e.

(** A language tag that has what [get_languages] reads from it, and the
    pair made of it. *)
Definition well_formed_item (t : node) : Prop :=
  is_Some (string_of t) ∧ is_Some (attr_of "href" t).

Definition item_of (t : node) : string * string :=
  (rstrip (lstrip (default "" (string_of t))),
   drop_chars 2 (default "" (attr_of "href" t))).

(** A keyword and its value, both without an underscore. *)
Definition clean (kv : string * string) : Prop :=
  mentions "_"%char (fst kv) = false ∧ mentions "_"%char (snd kv) = false.

Section WithCollaborators.

Context `{Collaborators}.

(** The second world is the first one with more lines printed. *)
Definition prints_only (w w' : world) : Prop :=
  ∃ out, w' = mkWorld (_cached_json w) (_cached_bs_page w)
                      (_cached_language w) (requests_log w) (disk w)
                      (stdout w ++ out).

(** A computation that, run with a page and a feed in the cache, leaves
    both there and issues no request; a program that issues none. *)
Definition stays_warm {A} (m : M A) : Prop :=
  ∀ w, warm w →
       warm (snd (m w)) ∧ requests_log (snd (m w)) = requests_log w.

Definition quiet (p : world → ending * world) : Prop :=
  ∀ w, warm w → requests_log (snd (p w)) = requests_log w.

(** A computation that does nothing but print. *)
Definition printer {A} (m : M A) : Prop :=
  ∀ w, prints_only w (snd (m w)).

End WithCollaborators.

End Runs.
Export Runs.

(** ** Concrete pages, feeds and worlds *)

Module Examples.

Import Reference.

Definition hero_link (id src : string) : node :=
  Tag "a" [("id", id); ("href", "#")] (Some ["heroPickerIconLink"])
      [Tag "img" [("src", src)] None []].

Definition column (classes : list string) (links : list node) : node :=
  Tag "div" [] (Some classes) [Tag "div" [] (Some ["heroIcons"]) links].

(** A page in the layout the merger expects: the Radiant columns first,
    then the Dire ones. *)
Definition heroes_page : soup :=
  [Tag "html" [] None
     [Tag "head" [] None [Tag "title" [] None [NavigableString "Heroes"]];
      Tag "body" [] None
        [column ["heroColLeft"]
           [hero_link "link_npc_dota_hero_axe" "axe.png"];
         column ["heroColMiddle"]
           [hero_link "link_npc_dota_hero_sniper" "sniper.png"];
         column ["heroColLeft"]
           [hero_link "link_npc_dota_hero_lycan" "lycan.png"];
         Comment " footer "]]].

(** A page whose only fragment lies under elements without a class. *)
Definition classless_page : soup :=
  [Tag "div" [] None
     [Tag "div" [] None [hero_link "link_npc_dota_hero_axe" "axe.png"]]].


Definition axe_entry : Feed.entry :=
  Feed.mkEntry "Axe" "..." ["Carry"; "Durable"] "Melee".

Definition ghost_entry : Feed.entry :=
  Feed.mkEntry "Ghost" "..." ["Support"] "Ranged".

Definition axe_feed : Feed.json := [("npc_dota_hero_axe", axe_entry)].

Definition ghost_feed : Feed.json :=
  [("npc_dota_hero_axe", axe_entry); ("npc_dota_hero_ghost", ghost_entry)].

Definition axe : Hero :=
  mkHero "Axe" "axe.png" (Some "Strength") "Radiant" "..."
         ["Carry"; "Durable"] "Melee" "npc_dota_hero_axe".

(** A cache holding the given feed and page under the given language. *)
Definition cached (j : Feed.json) (p : soup) (lang : string)
    (fs : gmap string file) : world :=
  mkWorld (Some j) (Some p) lang [] fs [].

Definition jspath : string := "cached_list.json".
Definition webpath : string := "cached_webpage.html".



(** Only the feed file of a snapshot is there. *)
Definition half_snapshot : gmap string file :=
  {[ jspath := Regular (Some (JsonData axe_feed)) ]}.


End Examples.

(** * Properties *)

(** ** The filter engine *)

Module FilterFacts.

Section Criteria.

Variables (name_c : string) (attribute : option string).
Variables (role : option (list string)) (attack_c : option string).

Local Abbreviation meets := (meets_criteria name_c attribute role attack_c).

Lemma match_name_spec h :
  match_name name_c h = true ↔ (name_c = "" ∨ name_c = name h ∨ name_c = key h).
Proof.
  unfold match_name.
  rewrite !orb_true_iff, !bool_decide_eq_true. intuition congruence.
Qed.

Lemma match_attr_spec h :
  match_attr attribute h = true ↔ (attribute = None ∨ attribute = attr h).
Proof.
  unfold match_attr. destruct attribute as [a|].
  - rewrite bool_decide_eq_true. split; [intros ->; by right|].
    intros [[=]|[= ->]]; reflexivity.
  - split; [by left|reflexivity].
Qed.

Lemma match_role_spec h :
  match_role role h = true ↔
  match role with None => True | Some r => r ⊆ roles h end.
Proof.
  unfold match_role. destruct role as [r|]; [|tauto].
  rewrite bool_decide_eq_true. split.
  - intros Hsub x Hx.
    apply (elem_of_list_to_set (C := gset string)), Hsub.
    by apply elem_of_list_to_set.
  - intros Hsub x Hx. apply elem_of_list_to_set, Hsub.
    by apply (elem_of_list_to_set (C := gset string)).
Qed.

Lemma match_attack_spec h :
  match_attack attack_c h = true ↔
  (attack_c = None ∨ attack_c = Some (attack h)).
Proof.
  unfold match_attack. destruct attack_c as [a|].
  - rewrite bool_decide_eq_true. split; [intros ->; by right|].
    intros [[=]|[= ->]]; reflexivity.
  - split; [by left|reflexivity].
Qed.

Definition all_filters (h : Hero) : bool :=
  match_role role h && match_attack attack_c h
  && match_attr attribute h && match_name name_c h.

Lemma all_filters_spec h : all_filters h = true ↔ meets h.
Proof.
  unfold all_filters, meets_criteria.
  rewrite !andb_true_iff, match_name_spec, match_attr_spec,
    match_role_spec, match_attack_spec.
  tauto.
Qed.

(** The four nested filters keep what a single pass with all four tests
    keeps. *)
Lemma filter_chain (hlist : list Hero) :
  find_heroes name_c attribute role attack_c hlist
  = List.filter all_filters hlist.
Proof.
  unfold find_heroes, all_filters.
  induction hlist as [|h t IH]; [reflexivity|].
  cbn [List.filter].
  destruct (match_role role h); cbn [List.filter andb]; [|exact IH].
  destruct (match_attack attack_c h); cbn [List.filter andb]; [|exact IH].
  destruct (match_attr attribute h); cbn [List.filter andb]; [|exact IH].
  destruct (match_name name_c h); cbn [List.filter]; [f_equal|]; exact IH.
Qed.

Lemma bool_filter_as_filter (hlist : list Hero) :
  List.filter all_filters hlist = filter meets hlist.
Proof.
  induction hlist as [|h t IH]; [reflexivity|].
  cbn [List.filter]. rewrite filter_cons.
  destruct (all_filters h) eqn:E.
  - rewrite decide_True by (by apply all_filters_spec). by f_equal.
  - rewrite decide_False; [exact IH|].
    intros Hm%all_filters_spec. congruence.
Qed.

Lemma find_heroes_filter (hlist : list Hero) :
  find_heroes name_c attribute role attack_c hlist = filter meets hlist.
Proof. by rewrite filter_chain, bool_filter_as_filter. Qed.

(** The head of a filtered list splits the input at the first element
    that passes. *)
Lemma filter_head_split (hlist : list Hero) :
  match filter meets hlist with
  | h :: _ =>
      ∃ earlier later, hlist = earlier ++ h :: later ∧ meets h
                       ∧ Forall (λ x, ¬ meets x) earlier
  | [] => Forall (λ x, ¬ meets x) hlist
  end.
Proof.
  induction hlist as [|x t IH]; [by constructor|].
  rewrite filter_cons. destruct (decide (meets x)) as [Hx|Hx].
  - exists [], t. split; [done|]. split; [done|constructor].
  - destruct (filter meets t) as [|h rest].
    + by constructor.
    + destruct IH as (earlier & later & -> & Hh & Hnone).
      exists (x :: earlier), later. split; [done|]. split; [done|].
      by constructor.
Qed.

End Criteria.

(** C1: [find_heroes] returns exactly the records of the input that
    satisfy every supplied criterion, in the order of the input: the name
    criterion holds when empty or equal to the record's name or key, the
    attribute and attack criteria when unspecified or equal, the roles
    criterion when unspecified or a subset of the record's roles.  With no
    criterion the result is the input itself. *)
Theorem find_heroes_exact (name_c : string) (attribute : option string)
    (role : option (list string)) (attack_c : option string)
    (hlist : list Hero) :
  find_heroes name_c attribute role attack_c hlist
  = filter (meets_criteria name_c attribute role attack_c) hlist
  ∧ (∀ h, h ∈ find_heroes name_c attribute role attack_c hlist
          ↔ h ∈ hlist ∧ meets_criteria name_c attribute role attack_c h)
  ∧ sublist (find_heroes name_c attribute role attack_c hlist) hlist
  ∧ find_heroes "" None None None hlist = hlist.
Proof.
  rewrite !find_heroes_filter. split; [reflexivity|].
  split; [intros h; rewrite list_elem_of_filter; tauto|].
  split; [apply sublist_filter|].
  induction hlist as [|h t IH]; [reflexivity|].
  rewrite filter_cons, decide_True; [by f_equal|].
  unfold meets_criteria. tauto.
Qed.

(** C7: [find_first_hero] returns the first record of the input, in input
    order, that satisfies the criteria, and [None] when no record does; it
    is a total function, so the no-match case is an ordinary result. *)
Theorem find_first_hero_first (name_c : string) (attribute : option string)
    (role : option (list string)) (attack_c : option string)
    (hlist : list Hero) :
  match find_first_hero name_c attribute role attack_c hlist with
  | Some h =>
      ∃ earlier later,
        hlist = earlier ++ h :: later
        ∧ meets_criteria name_c attribute role attack_c h
        ∧ Forall (λ x, ¬ meets_criteria name_c attribute role attack_c x)
                 earlier
  | None =>
      Forall (λ x, ¬ meets_criteria name_c attribute role attack_c x) hlist
  end.
Proof.
  unfold find_first_hero. rewrite find_heroes_filter.
  pose proof (filter_head_split name_c attribute role attack_c hlist) as Hs.
  destruct (filter _ hlist); exact Hs.
Qed.

End FilterFacts.

(** ** The cache *)

(** Unfolds the monad so that a computation applied to a world reduces. *)
Ltac run :=
  unfold mbind, mret, M_bind, M_ret, bind, ret, raise, gets, modify,
    except_IOError;
  cbn beta iota zeta.

Module CacheFacts.

Section WithCollaborators.

Context `{Collaborators}.

Lemma get_web_page_cached url lang w p :
  _cached_bs_page w = Some p →
  (lang = "" ∨ _cached_language w = lang) →
  get_web_page url lang w = (Return p, w).
Proof.
  intros Hp Hl. unfold get_web_page. run. rewrite Hp.
  destruct Hl as [Hl|Hl].
  - by rewrite (bool_decide_eq_false_2 (lang ≠ "")) by tauto.
  - rewrite (bool_decide_eq_false_2 (_cached_language w ≠ lang)) by tauto.
    by rewrite andb_false_r.
Qed.

Lemma get_json_list_cached url lang w j :
  _cached_json w = Some j →
  (lang = "" ∨ _cached_language w = lang) →
  get_json_list url lang w = (Return j, w).
Proof.
  intros Hj Hl. unfold get_json_list. run. rewrite Hj.
  destruct Hl as [Hl|Hl].
  - by rewrite (bool_decide_eq_false_2 (lang ≠ "")) by tauto.
  - rewrite (bool_decide_eq_false_2 (_cached_language w ≠ lang)) by tauto.
    by rewrite andb_false_r.
Qed.

(** A request for a language that is named and is not the cached one
    fetches, and hands out what it fetched. *)
Lemma get_web_page_other_language url lang w :
  lang ≠ "" → _cached_language w ≠ lang →
  get_web_page url lang w
  = (Return (BeautifulSoup (requests_get_text (url ++ "?l=" ++ lang))),
     set_bs_page (Some (BeautifulSoup (requests_get_text (url ++ "?l=" ++ lang))))
       (log_request (url ++ "?l=" ++ lang) w)).
Proof.
  intros Hne Hl. unfold get_web_page, http_text. run.
  rewrite !bool_decide_eq_true_2 by done.
  by destruct (_cached_bs_page w).
Qed.

Lemma get_web_page_empty url lang w :
  _cached_bs_page w = None →
  get_web_page url lang w
  = (Return (BeautifulSoup (requests_get_text (url ++ "?l=" ++ lang))),
     set_bs_page (Some (BeautifulSoup (requests_get_text (url ++ "?l=" ++ lang))))
       (log_request (url ++ "?l=" ++ lang) w)).
Proof. intros Hp. unfold get_web_page, http_text. run. by rewrite Hp. Qed.

Lemma get_json_list_empty url lang w :
  _cached_json w = None →
  get_json_list url lang w
  = (Return (requests_get_json (url ++ "?l=" ++ lang)),
     set_json (Some (requests_get_json (url ++ "?l=" ++ lang)))
       (log_request (url ++ "?l=" ++ lang) w)).
Proof. intros Hj. unfold get_json_list, http_json. run. by rewrite Hj. Qed.

(** The same language again: nothing is fetched, nothing changes. *)
Lemma set_language_same w :
  set_language (_cached_language w) w = (Return tt, w).
Proof.
  unfold set_language. run. by rewrite bool_decide_eq_false_2 by tauto.
Qed.

Lemma set_language_stale w lang p j :
  _cached_bs_page w = Some p →
  _cached_json w = Some j →
  _cached_language w ≠ lang →
  set_language lang w = (Return tt, set_cached_language lang w).
Proof.
  intros Hp Hj Hl. unfold set_language. run.
  rewrite bool_decide_eq_true_2 by done.
  rewrite (get_web_page_cached _ _ _ p) by (by try right).
  by rewrite (get_json_list_cached _ _ _ j) by (by try right).
Qed.

(** C2, as the code has it: with a document and a feed in the cache,
    [set_language] to another language records the new language and
    fetches nothing, so the cache keeps the document and feed of the old
    language; the claim has it refetch both. *)
Theorem set_language_keeps_stale_cache (w : world) (lang : string)
    (p : soup) (j : Feed.json) :
  _cached_bs_page w = Some p →
  _cached_json w = Some j →
  _cached_language w ≠ lang →
  set_language lang w = (Return tt, set_cached_language lang w)
  ∧ requests_log (snd (set_language lang w)) = requests_log w
  ∧ _cached_bs_page (snd (set_language lang w)) = Some p
  ∧ _cached_json (snd (set_language lang w)) = Some j.
Proof.
  intros Hp Hj Hl. rewrite (set_language_stale w lang p j Hp Hj Hl).
  by repeat split.
Qed.

(** C5, as the code has it: from an empty cache, reading the page and the
    feed in the default language and then calling
    [set_language("french")] leaves a cache whose recorded language is
    french while its document and feed are the ones requested with the
    default language; no request ever named french. *)
Theorem cache_language_invariant_broken (fs : gmap string file) :
  let w := snd (default_then_french (fresh fs)) in
  _cached_language w = "french"
  ∧ _cached_bs_page w
    = Some (BeautifulSoup (requests_get_text (default_url ++ "?l=")))
  ∧ _cached_json w = Some (requests_get_json (default_json_url ++ "?l="))
  ∧ requests_log w
    = [(default_url ++ "?l=")%string; (default_json_url ++ "?l=")%string].
Proof.
  unfold default_then_french. run.
  rewrite get_web_page_empty by done.
  rewrite get_json_list_empty by done.
  erewrite set_language_stale by (try reflexivity; done).
  by repeat split.
Qed.

End WithCollaborators.

End CacheFacts.

(** ** Documents *)

Module SoupFacts.

(** Induction on a node with the hypothesis for every child of a tag. *)
Lemma node_ind' (P : node → Prop) :
  (∀ nm ats c cs, Forall P cs → P (Tag nm ats c cs)) →
  (∀ s, P (NavigableString s)) →
  (∀ s, P (Comment s)) →
  ∀ n, P n.
Proof.
  intros HT HS HC. fix IH 1. intros [nm ats c cs|s|s]; [|apply HS|apply HC].
  apply HT. induction cs as [|x cs IHcs]; constructor; [apply IH|exact IHcs].
Qed.

(** Appending to the head inserts the comments of the new nodes at one
    place of the document's comments and moves none. *)
Lemma append_in_comments new n n' :
  append_in new n = Some n' →
  ∃ la lb, comments n = la ++ lb
           ∧ comments n' = la ++ List.flat_map comments new ++ lb.
Proof.
  revert n'. induction n as [nm ats c cs IH|s|s] using node_ind';
    intros n' Happ; [|discriminate..].
  cbn [append_in] in Happ. destruct (bool_decide (nm = "head")).
  - injection Happ as <-. exists (List.flat_map comments cs), [].
    cbn [comments]. by rewrite flat_map_app, !app_nil_r.
  - match type of Happ with
    | _ <$> ?r = _ => destruct r as [cs'|] eqn:Hcs; [|discriminate]
    end.
    injection Happ as <-. cbn [comments].
    clear -IH Hcs. revert cs' Hcs.
    induction IH as [|x cs Hx _ IHcs]; intros cs' Hcs; [discriminate|].
    destruct (append_in new x) as [x'|] eqn:Hx'.
    + injection Hcs as <-. destruct (Hx x' eq_refl) as (la & lb & E & E').
      exists la, (lb ++ List.flat_map comments cs). cbn [List.flat_map].
      by rewrite E, E', <- !app_assoc.
    + match type of Hcs with
      | _ <$> ?r = _ => destruct r as [cs''|] eqn:Hcs''; [|discriminate]
      end.
      injection Hcs as <-. destruct (IHcs cs'' eq_refl) as (la & lb & E & E').
      exists (comments x ++ la), lb. cbn [List.flat_map].
      by rewrite E, E', <- !app_assoc.
Qed.

Lemma head_append_comments new d d' :
  head_append new d = Some d' →
  ∃ la lb, soup_comments d = la ++ lb
           ∧ soup_comments d' = la ++ List.flat_map comments new ++ lb.
Proof.
  unfold soup_comments. revert d'.
  induction d as [|x d IH]; intros d' Happ; [discriminate|].
  cbn [head_append] in Happ. destruct (append_in new x) as [x'|] eqn:Hx.
  - injection Happ as <-.
    destruct (append_in_comments _ _ _ Hx) as (la & lb & E & E').
    exists la, (lb ++ List.flat_map comments d). cbn [List.flat_map].
    by rewrite E, E', <- !app_assoc.
  - destruct (head_append new d) as [d''|]; [|discriminate].
    injection Happ as <-. destruct (IH d'' eq_refl) as (la & lb & E & E').
    exists (comments x ++ la), lb. cbn [List.flat_map].
    by rewrite E, E', <- !app_assoc.
Qed.

(** A document that had a head still has one after the append. *)
Lemma append_in_again new new' n n' :
  append_in new n = Some n' → is_Some (append_in new' n').
Proof.
  revert n'. induction n as [nm ats c cs IH|s|s] using node_ind';
    intros n' Happ; [|discriminate..].
  cbn [append_in] in Happ. destruct (bool_decide (nm = "head")) eqn:Hnm.
  - injection Happ as <-. cbn [append_in]. rewrite Hnm. eauto.
  - match type of Happ with
    | _ <$> ?r = _ => destruct r as [cs'|] eqn:Hcs; [|discriminate]
    end.
    injection Happ as <-. cbn [append_in]. rewrite Hnm.
    apply fmap_is_Some. clear -IH Hcs. revert cs' Hcs.
    induction IH as [|x cs Hx _ IHcs]; intros cs' Hcs; [discriminate|].
    destruct (append_in new x) as [x'|] eqn:Hx'.
    + injection Hcs as <-. destruct (Hx x' eq_refl) as [y ->]. eauto.
    + match type of Hcs with
      | _ <$> ?r = _ => destruct r as [cs''|] eqn:Hcs''; [|discriminate]
      end.
      injection Hcs as <-. destruct (IHcs cs'' eq_refl) as [y ->].
      destruct (append_in new' x); eauto.
Qed.

Lemma head_append_again new new' d d' :
  head_append new d = Some d' → is_Some (head_append new' d').
Proof.
  revert d'. induction d as [|x d IH]; intros d' Happ; [discriminate|].
  cbn [head_append] in Happ. destruct (append_in new x) as [x'|] eqn:Hx.
  - injection Happ as <-. cbn [head_append].
    destruct (append_in_again new new' _ _ Hx) as [y ->]. eauto.
  - destruct (head_append new d) as [d''|]; [|discriminate].
    injection Happ as <-. cbn [head_append].
    destruct (IH d'' eq_refl) as [y ->]. destruct (append_in new' x); eauto.
Qed.

End SoupFacts.

(** ** The disk snapshot *)

Module SnapshotFacts.

Import SoupFacts CacheFacts.

Section WithCollaborators.

Context `{Collaborators}.

Lemma open_r_regular path w data :
  disk w !! path = Some (Regular data) → open_r path w = (Return data, w).
Proof. intros Hf. unfold open_r. run. by rewrite Hf. Qed.

Lemma open_r_unreadable path w :
  ¬ readable (disk w) path → open_r path w = (Raise IOError, w).
Proof.
  intros Hno. unfold open_r. run.
  destruct (disk w !! path) as [[|data]|] eqn:Hf; try reflexivity.
  destruct Hno. by exists data.
Qed.

Lemma open_w_writable path w :
  writable (disk w) path →
  open_w path w = (Return tt, set_disk (<[path := Regular None]> (disk w)) w).
Proof.
  intros Hw. unfold open_w. run.
  destruct (disk w !! path) as [[|data]|] eqn:Hf; try reflexivity.
  by destruct Hw.
Qed.

Lemma readable_cases (fs : gmap string file) path :
  readable fs path ∨ ¬ readable fs path.
Proof.
  unfold readable. destruct (fs !! path) as [[|data]|]; [right|left|right];
    [intros [? [=]]|by exists data|intros [? [=]]].
Qed.

(** What a failed load leaves behind. *)
Lemma read_disk_cache_unreadable jspath webpath w :
  ¬ readable (disk w) jspath ∨ ¬ readable (disk w) webpath →
  read_disk_cache jspath webpath w
  = (Return tt,
     print_line "Could not load from disk." (set_cached_language "" w)).
Proof.
  intros Hno. unfold read_disk_cache. run.
  destruct (readable_cases (disk w) jspath) as [[data Hjs]|Hjs].
  - destruct Hno as [Hno|Hno]; [destruct Hno; by exists data|].
    rewrite (open_r_regular jspath _ data) by exact Hjs.
    by rewrite open_r_unreadable by exact Hno.
  - by rewrite open_r_unreadable by exact Hjs.
Qed.

(** C4, as the code has it: when either snapshot file cannot be opened,
    [read_disk_cache] prints its message and returns, with the cached
    document and feed as they were, but with the cached language reset to
    the empty string; the claim has the language untouched as well. *)
Theorem read_disk_cache_failure_resets_language (w : world)
    (jspath webpath : string) :
  ¬ readable (disk w) jspath ∨ ¬ readable (disk w) webpath →
  ∃ w', read_disk_cache jspath webpath w = (Return tt, w')
        ∧ _cached_json w' = _cached_json w
        ∧ _cached_bs_page w' = _cached_bs_page w
        ∧ _cached_language w' = ""
        ∧ stdout w' = stdout w ++ ["Could not load from disk."].
Proof.
  intros Hno. eexists. split; [by apply read_disk_cache_unreadable|].
  by repeat split.
Qed.

Lemma get_json_list_default w :
  ∃ w1, get_json_list default_json_url "" w = (Return (feed_of w), w1)
        ∧ _cached_json w1 = Some (feed_of w)
        ∧ _cached_bs_page w1 = _cached_bs_page w
        ∧ _cached_language w1 = _cached_language w
        ∧ disk w1 = disk w
        ∧ stdout w1 = stdout w.
Proof.
  unfold feed_of. destruct (_cached_json w) as [j|] eqn:Hj.
  - exists w. by rewrite (get_json_list_cached _ _ _ j) by (by try left).
  - eexists. by rewrite get_json_list_empty by done.
Qed.

Lemma get_web_page_default w :
  ∃ w1, get_web_page default_url "" w = (Return (page_of w), w1)
        ∧ _cached_bs_page w1 = Some (page_of w)
        ∧ _cached_json w1 = _cached_json w
        ∧ _cached_language w1 = _cached_language w
        ∧ disk w1 = disk w
        ∧ stdout w1 = stdout w.
Proof.
  unfold page_of. destruct (_cached_bs_page w) as [p|] eqn:Hp.
  - exists w. by rewrite (get_web_page_cached _ _ _ p) by (by try left).
  - eexists. by rewrite get_web_page_empty by done.
Qed.

Lemma writable_insert (fs : gmap string file) path path' data :
  writable fs path → writable (<[path' := Regular data]> fs) path.
Proof.
  unfold writable. intros Hw. rewrite lookup_insert.
  case_decide; [discriminate|exact Hw].
Qed.

(** One save that goes through: the cached page is the old one with the
    marker appended, and both files hold the dumps. *)
Lemma write_disk_cache_run jspath webpath w page' :
  writable (disk w) jspath → writable (disk w) webpath →
  head_append (BeautifulSoup (language_markup (_cached_language w)))
              (page_of w) = Some page' →
  ∃ w', write_disk_cache jspath webpath w = (Return tt, w')
        ∧ _cached_bs_page w' = Some page'
        ∧ _cached_json w' = Some (feed_of w)
        ∧ _cached_language w' = _cached_language w
        ∧ stdout w' = stdout w
        ∧ disk w'
          = <[webpath := Regular (Some (prettify page'))]>
              (<[jspath := Regular (Some (json_dumps (feed_of w)))]>
                 (<[webpath := Regular None]>
                    (<[jspath := Regular None]> (disk w)))).
Proof.
  intros Hjs Hweb Happ. unfold write_disk_cache. run.
  rewrite open_w_writable by exact Hjs.
  rewrite open_w_writable by (by apply writable_insert).
  match goal with
  | |- context [get_json_list _ _ ?w0] =>
      destruct (get_json_list_default w0) as (w1 & -> & Hj1 & Hp1 & Hl1 & Hd1 & Ho1)
  end.
  destruct (get_web_page_default w1) as (w2 & -> & Hp2 & Hj2 & Hl2 & Hd2 & Ho2).
  assert (page_of w1 = page_of w) as Hpage.
  { unfold page_of. by rewrite Hp1. }
  rewrite Hl2, Hl1, Hpage. cbn [_cached_language set_disk]. rewrite Happ.
  unfold file_write. run. eexists. split; [reflexivity|].
  cbn. rewrite Hj2, Hj1, Hl2, Hl1, Ho2, Ho1, Hd2, Hd1.
  by repeat split.
Qed.




Lemma marker_is_language_comment lang :
  is_language_comment ("LANGUAGE=" ++ lang) = true.
Proof. apply bool_decide_eq_true. by destruct lang. Qed.

Lemma marker_count_append lang page page' :
  head_append [marker lang] page = Some page' →
  marker_count page' = marker_count page + 1.
Proof.
  intros (la & lb & E & E')%head_append_comments.
  unfold marker_count. rewrite E, E'. cbn [List.flat_map comments marker].
  rewrite !List.filter_app. cbn [List.filter app].
  rewrite marker_is_language_comment. rewrite !length_app. cbn [length]. lia.
Qed.

Lemma find_app_none {A} (f : A → bool) l1 l2 :
  List.find f (l1 ++ l2) = None →
  List.find f l1 = None ∧ List.find f l2 = None.
Proof.
  induction l1 as [|x l1 IH]; cbn [List.find app]; [by split|].
  destruct (f x); [discriminate|exact IH].
Qed.

Lemma find_app_skip {A} (f : A → bool) l1 l2 :
  List.find f l1 = None → List.find f (l1 ++ l2) = List.find f l2.
Proof.
  induction l1 as [|x l1 IH]; cbn [List.find app]; [done|].
  destruct (f x); [discriminate|exact IH].
Qed.


Lemma split_on_absent sep s :
  mentions sep s = false → split_on sep s = [s].
Proof.
  induction s as [|c t IH]; cbn [mentions split_on]; [done|].
  intros [Hc Ht]%orb_false_iff. rewrite Hc, (IH Ht). reflexivity.
Qed.

Lemma marker_language lang :
  mentions "="%char lang = false →
  split_on "="%char ("LANGUAGE=" ++ lang) !! 1%nat = Some lang.
Proof.
  intros Hno. unfold String.append. cbn.
  by rewrite (split_on_absent _ lang Hno).
Qed.

(** Any number of saves in a row. *)
Lemma saves_run n : ∀ w jspath webpath,
  writable (disk w) jspath → writable (disk w) webpath →
  BeautifulSoup (language_markup (_cached_language w))
  = [marker (_cached_language w)] →
  is_Some (head_append [marker (_cached_language w)] (page_of w)) →
  ∃ w' page',
    saves n jspath webpath w = (Return tt, w')
    ∧ append_markers n (_cached_language w) (page_of w) = Some page'
    ∧ page_of w' = page'
    ∧ marker_count page' = marker_count (page_of w) + n
    ∧ _cached_language w' = _cached_language w
    ∧ match n with
      | 0 => True
      | S _ => _cached_bs_page w' = Some page'
               ∧ disk w' !! webpath = Some (Regular (Some (prettify page')))
      end.
Proof.
  induction n as [|n IH]; intros w jspath webpath Hjs Hweb Hparse [p1 Hp1].
  - exists w, (page_of w). cbn [saves append_markers]. run.
    repeat split; [lia].
  - destruct (write_disk_cache_run jspath webpath w p1 Hjs Hweb)
      as (w1 & Hrun & Hpage1 & _ & Hl1 & _ & Hd1).
    { by rewrite Hparse. }
    assert (page_of w1 = p1) as Hof by (unfold page_of; by rewrite Hpage1).
    destruct (IH w1 jspath webpath) as (w' & page' & Hrun' & Happ' & Hof' & Hcount & Hl' & Hlast).
    { rewrite Hd1. by do 4 apply writable_insert. }
    { rewrite Hd1. by do 4 apply writable_insert. }
    { by rewrite Hl1. }
    { rewrite Hl1, Hof. by apply (head_append_again _ _ _ _ Hp1). }
    exists w', page'. cbn [saves append_markers]. run. rewrite Hrun, Hrun'.
    rewrite Hp1. cbn [mbind option_bind]. rewrite Hl1, Hof in Happ'.
    rewrite Hof, (marker_count_append _ _ _ Hp1) in Hcount.
    repeat split; [exact Happ'|exact Hof'|lia|congruence|..].
    + destruct n; [|tauto]. cbn [saves] in Hrun'. injection Hrun' as <-.
      cbn [append_markers] in Happ'. congruence.
    + destruct n; [|tauto]. cbn [saves] in Hrun'. injection Hrun' as <-.
      cbn [append_markers] in Happ'. injection Happ' as <-.
      rewrite Hd1. apply lookup_insert_eq.
Qed.

(** C9: a save appends a new [LANGUAGE=] comment to the head of the
    cached document itself and writes the dump of that document, so
    [n + 1] saves in a row leave the cached and the written document with
    [n + 1] more language markers than the document had. *)
Theorem saves_accumulate_markers (n : nat) (w : world)
    (jspath webpath : string) :
  writable (disk w) jspath →
  writable (disk w) webpath →
  jspath ≠ webpath →
  BeautifulSoup (language_markup (_cached_language w))
  = [marker (_cached_language w)] →
  is_Some (head_append [marker (_cached_language w)] (page_of w)) →
  ∃ w' page',
    saves (S n) jspath webpath w = (Return tt, w')
    ∧ append_markers (S n) (_cached_language w) (page_of w) = Some page'
    ∧ _cached_bs_page w' = Some page'
    ∧ marker_count page' = marker_count (page_of w) + S n
    ∧ disk w' !! webpath = Some (Regular (Some (prettify page'))).
Proof.
  intros Hjs Hweb _ Hparse Hhead.
  destruct (saves_run (S n) w jspath webpath Hjs Hweb Hparse Hhead)
    as (w' & page' & Hrun & Happ & _ & Hcount & _ & Hpage & Hdisk).
  by exists w', page'.
Qed.


End WithCollaborators.

End SnapshotFacts.

(** ** Page order *)

Module OrderFacts.

Import SoupFacts.

Lemma walk_Tag here nm ats c cs :
  walk here (Tag nm ats c cs) = (here, Tag nm ats c cs) :: walk_kids here 0 cs.
Proof.
  cbn [walk]. f_equal. generalize 0.
  induction cs as [|x cs IH]; intros i; cbn [walk_kids]; [done|].
  by rewrite IH.
Qed.

Lemma before_irrefl p : ¬ before p p.
Proof. induction p as [|i p IH]; cbn [before]; [tauto|]. intros [?|[_ ?]]; [lia|tauto]. Qed.

Lemma before_asym p q : before p q → before q p → False.
Proof.
  revert q. induction p as [|i p IH]; intros [|j q]; cbn [before]; try tauto.
  intros [?|[-> ?]] [?|[? ?]]; try lia. eauto.
Qed.

Lemma before_extension p k r : before p (p ++ k :: r).
Proof. induction p as [|i p IH]; cbn [before app]; [tauto|]. right. by split. Qed.

Lemma before_siblings p i j r r' : i < j → before (p ++ i :: r) (p ++ j :: r').
Proof.
  intros Hij. induction p as [|k p IH]; cbn [before app]; [by left|].
  right. by split.
Qed.

(** An element that comes before another is one of its ancestors, or the
    two part ways, and then so do their descendants. *)
Lemma before_cases p q :
  before p q →
  (∃ k r, q = p ++ k :: r) ∨ (∀ r r', before (p ++ r) (q ++ r')).
Proof.
  revert q. induction p as [|i p IH]; intros [|j q]; cbn [before];
    try tauto.
  - intros _. left. by exists j, q.
  - intros [Hij|[-> Hpq]].
    + right. intros r r'. cbn [app before]. by left.
    + destruct (IH q Hpq) as [(k & r & ->)|Hdiv].
      * left. by exists k, r.
      * right. intros r r'. cbn [app before]. right. split; [done|apply Hdiv].
Qed.

Lemma node_at_app n p q :
  node_at n (p ++ q) = node_at n p ≫= λ m, node_at m q.
Proof.
  revert n. induction p as [|i p IH]; intros n; [done|].
  cbn [app node_at]. destruct n as [nm ats c cs|s|s]; [|done..].
  destruct (cs !! i) as [x|]; [apply IH|done].
Qed.

(** Every element of a walk sits at the path the walk gives it. *)
Lemma walk_sound n : ∀ here p m,
  (p, m) ∈ walk here n → ∃ q, p = here ++ q ∧ node_at n q = Some m.
Proof.
  induction n as [nm ats c cs IH|s|s] using node_ind'; intros here p m Hin.
  - rewrite walk_Tag in Hin. apply elem_of_cons in Hin as [[= -> ->]|Hin].
    { exists []. by rewrite app_nil_r. }
    assert (∀ i, (p, m) ∈ walk_kids here i cs →
                 ∃ k x q, cs !! k = Some x ∧ p = here ++ (i + k) :: q
                          ∧ node_at x q = Some m) as Hkids.
    { clear Hin. induction IH as [|x cs Hx _ IHcs]; intros i Hin;
        cbn [walk_kids] in Hin; [by apply elem_of_nil in Hin|].
      apply elem_of_app in Hin as [Hin|Hin].
      - destruct (Hx _ _ _ Hin) as (q & -> & Hq). exists 0, x, q.
        rewrite <- app_assoc, Nat.add_0_r. by repeat split.
      - destruct (IHcs _ Hin) as (k & y & q & Hk & -> & Hq).
        exists (S k), y, q. replace (i + S k) with (S i + k) by lia.
        by repeat split. }
    destruct (Hkids 0 Hin) as (k & x & q & Hk & -> & Hq).
    exists (k :: q). split; [done|]. cbn [node_at]. by rewrite Hk.
  - apply list_elem_of_singleton in Hin as [= -> ->]. exists [].
    by rewrite app_nil_r.
  - apply list_elem_of_singleton in Hin as [= -> ->]. exists [].
    by rewrite app_nil_r.
Qed.

Lemma walk_kids_sound here i cs p m :
  (p, m) ∈ walk_kids here i cs →
  ∃ k x q, cs !! k = Some x ∧ p = here ++ (i + k) :: q
           ∧ node_at x q = Some m.
Proof.
  revert i. induction cs as [|x cs IH]; intros i Hin; cbn [walk_kids] in Hin;
    [by apply elem_of_nil in Hin|].
  apply elem_of_app in Hin as [Hin|Hin].
  - destruct (walk_sound _ _ _ _ Hin) as (q & -> & Hq). exists 0, x, q.
    rewrite <- app_assoc, Nat.add_0_r. by repeat split.
  - destruct (IH _ Hin) as (k & y & q & Hk & -> & Hq).
    exists (S k), y, q. replace (i + S k) with (S i + k) by lia.
    by repeat split.
Qed.

(** Every element under a node is met by the walk. *)
Lemma walk_complete n : ∀ here q m,
  node_at n q = Some m → (here ++ q, m) ∈ walk here n.
Proof.
  induction n as [nm ats c cs IH|s|s] using node_ind'; intros here q m Hq.
  - rewrite walk_Tag. destruct q as [|k q].
    { injection Hq as <-. rewrite app_nil_r. apply list_elem_of_here. }
    apply list_elem_of_further. cbn [node_at] in Hq.
    destruct (cs !! k) as [x|] eqn:Hk; [|done].
    assert (∀ i, (here ++ (i + k) :: q, m) ∈ walk_kids here i cs) as Hkids.
    { clear -IH Hk Hq. revert k Hk.
      induction IH as [|y cs Hy _ IHcs]; intros k Hk i; [done|].
      cbn [walk_kids]. apply elem_of_app. destruct k as [|k].
      - left. injection Hk as ->. rewrite Nat.add_0_r.
        replace (here ++ i :: q) with ((here ++ [i]) ++ q)
          by (by rewrite <- app_assoc).
        by apply Hy.
      - right. replace (i + S k) with (S i + k) by lia. by apply IHcs. }
    apply (Hkids 0).
  - destruct q; [|done]. injection Hq as <-. rewrite app_nil_r.
    apply list_elem_of_here.
  - destruct q; [|done]. injection Hq as <-. rewrite app_nil_r.
    apply list_elem_of_here.
Qed.

Lemma walk_kids_complete here i cs k x q m :
  cs !! k = Some x → node_at x q = Some m →
  (here ++ (i + k) :: q, m) ∈ walk_kids here i cs.
Proof.
  revert i k. induction cs as [|y cs IH]; intros i k Hk Hq; [done|].
  cbn [walk_kids]. apply elem_of_app. destruct k as [|k].
  - left. injection Hk as ->. rewrite Nat.add_0_r.
    replace (here ++ i :: q) with ((here ++ [i]) ++ q)
      by (by rewrite <- app_assoc).
    by apply walk_complete.
  - right. replace (i + S k) with (S i + k) by lia. by apply IH.
Qed.

(** The walk lists the elements in page order. *)
Lemma walk_sorted n : ∀ here, StronglySorted earlier (walk here n).
Proof.
  induction n as [nm ats c cs IH|s|s] using node_ind'; intros here;
    [|repeat constructor..].
  rewrite walk_Tag. apply StronglySorted_cons. split.
  - apply Forall_forall. intros [p m] Hin.
    destruct (walk_kids_sound _ _ _ _ _ Hin) as (k & x & q & _ & -> & _).
    apply before_extension.
  - generalize 0. induction IH as [|x cs Hx _ IHcs]; intros i;
      cbn [walk_kids]; [constructor|].
    apply StronglySorted_app. split; [|split; [apply Hx|apply IHcs]].
    intros [p1 m1] [p2 m2] Hin1 Hin2.
    destruct (walk_sound _ _ _ _ Hin1) as (q1 & -> & _).
    destruct (walk_kids_sound _ _ _ _ _ Hin2) as (k & y & q2 & _ & -> & _).
    unfold earlier. cbn [fst]. rewrite <- app_assoc. cbn [app].
    apply before_siblings. lia.
Qed.

Lemma descendants_sorted d : StronglySorted earlier (descendants d).
Proof.
  pose proof (walk_sorted (document d) []) as Hs.
  unfold document in Hs. rewrite walk_Tag in Hs.
  by apply StronglySorted_cons in Hs as [_ Hs].
Qed.

Lemma descendants_sound d p m :
  (p, m) ∈ descendants d → p ≠ [] ∧ node_at (document d) p = Some m.
Proof.
  intros Hin.
  destruct (walk_kids_sound _ _ _ _ _ Hin) as (k & x & q & Hk & -> & Hq).
  split; [done|]. cbn. by rewrite Hk.
Qed.

Lemma descendants_complete d p m :
  p ≠ [] → node_at (document d) p = Some m → (p, m) ∈ descendants d.
Proof.
  destruct p as [|k q]; [done|]. intros _ Hq. cbn [document node_at] in Hq.
  match type of Hq with
  | match ?e with _ => _ end = _ => destruct e as [x|] eqn:Hk; [|done]
  end.
  apply (walk_kids_complete [] 0 d k x q m Hk Hq).
Qed.

(** The first element that passes a test comes before every other one
    that passes it. *)
Lemma first_match_earliest (f : node → bool) l x rest y :
  StronglySorted earlier l →
  List.filter (λ pn, f (snd pn)) l = x :: rest →
  y ∈ l → f (snd y) = true →
  x = y ∨ earlier x y.
Proof.
  intros Hs. revert x rest. induction Hs as [|z l Hs IH Hz];
    intros x rest Hf Hy Hfy; [done|].
  cbn [List.filter] in Hf. apply elem_of_cons in Hy as [->|Hy].
  - rewrite Hfy in Hf. injection Hf as -> _. by left.
  - destruct (f (snd z)).
    + injection Hf as -> _. right.
      by apply (proj1 (Forall_forall _ _) Hz).
    + by apply (IH x rest).
Qed.

Lemma find_all_first f d x rest y :
  find_all f d = x :: rest → y ∈ descendants d → f (snd y) = true →
  x = y ∨ earlier x y.
Proof. apply first_match_earliest, descendants_sorted. Qed.

Lemma find_all_head f d x rest :
  find_all f d = x :: rest → x ∈ descendants d ∧ f (snd x) = true.
Proof.
  intros Hf. assert (x ∈ find_all f d) as Hin by (rewrite Hf; by left).
  unfold find_all in Hin. apply list_elem_of_In, filter_In in Hin as [Hin ?].
  split; [by apply list_elem_of_In|done].
Qed.

(** *** Element equality *)

Lemma py_eq_Tag n1 a1 c1 k1 n2 a2 c2 k2 :
  py_eq (Tag n1 a1 c1 k1) (Tag n2 a2 c2 k2)
  = bool_decide (n1 = n2) && dict_eqb a1 a2 && bool_decide (c1 = c2)
    && py_eq_list k1 k2.
Proof.
  reflexivity.
Qed.

Lemma dict_eqb_refl a : dict_eqb a a = true.
Proof.
  unfold dict_eqb. apply forallb_forall. intros k _.
  by apply bool_decide_eq_true.
Qed.

Lemma dict_get_None {V} k (d : list (string * V)) :
  k ∉ map fst d → dict_get k d = None.
Proof.
  induction d as [|[k' v] d IH]; [done|]. cbn [map fst dict_get].
  intros Hk. rewrite bool_decide_eq_false_2.
  - apply IH. intros ?. apply Hk. by right.
  - intros ->. apply Hk. by left.
Qed.

Lemma dict_eqb_get a b k : dict_eqb a b = true → dict_get k a = dict_get k b.
Proof.
  unfold dict_eqb. intros Hall.
  destruct (decide (k ∈ map fst a ++ map fst b)) as [Hin|Hout].
  - apply list_elem_of_In in Hin.
    apply (proj1 (forallb_forall _ _) Hall), bool_decide_eq_true in Hin.
    exact Hin.
  - rewrite elem_of_app in Hout.
    rewrite !dict_get_None; [done|tauto..].
Qed.

Lemma py_eq_refl n : py_eq n n = true.
Proof.
  induction n as [nm ats c cs IH|s|s] using node_ind';
    [|by apply bool_decide_eq_true..].
  rewrite py_eq_Tag, dict_eqb_refl, !bool_decide_eq_true_2 by done.
  cbn [andb]. induction IH as [|x cs Hx _ IHcs]; [done|].
  cbn [py_eq_list]. by rewrite Hx, IHcs.
Qed.

Lemma py_eq_list_lookup l1 l2 k x :
  py_eq_list l1 l2 = true → l1 !! k = Some x →
  ∃ y, l2 !! k = Some y ∧ py_eq x y = true.
Proof.
  revert l2 k. induction l1 as [|a l1 IH]; intros [|b l2] k Heq Hk;
    try done.
  cbn [py_eq_list] in Heq. apply andb_true_iff in Heq as [Hab Heq].
  destruct k as [|k].
  - injection Hk as <-. by exists b.
  - by apply (IH l2 k).
Qed.

(** Equal elements have equal elements at the same places. *)
Lemma py_eq_node_at q : ∀ a b x,
  py_eq a b = true → node_at a q = Some x →
  ∃ y, node_at b q = Some y ∧ py_eq x y = true.
Proof.
  induction q as [|k q IH]; intros a b x Heq Hq.
  - injection Hq as <-. by exists b.
  - destruct a as [n1 a1 c1 k1|s|s]; [|done..].
    destruct b as [n2 a2 c2 k2|s|s]; [|done..].
    rewrite py_eq_Tag in Heq. apply andb_true_iff in Heq as [_ Heq].
    cbn [node_at] in *. destruct (k1 !! k) as [x1|] eqn:Hk; [|done].
    destruct (py_eq_list_lookup _ _ _ _ Heq Hk) as (y1 & -> & Hxy).
    by apply (IH x1 y1).
Qed.

Lemma py_eq_size a : ∀ b, py_eq a b = true → size a = size b.
Proof.
  induction a as [n1 a1 c1 k1 IH|s|s] using node_ind';
    intros [n2 a2 c2 k2|s2|s2] Heq; try done.
  rewrite py_eq_Tag in Heq. apply andb_true_iff in Heq as [_ Heq].
  cbn [size]. f_equal. revert k2 Heq.
  induction IH as [|x k1 Hx _ IHk]; intros [|y k2] Heq; try done.
  cbn [py_eq_list] in Heq. apply andb_true_iff in Heq as [Hxy Heq].
  change (size x + list_sum (map size k1)
          = size y + list_sum (map size k2)).
  by rewrite (Hx y Hxy), (IHk k2 Heq).
Qed.

Lemma size_lookup cs k x :
  cs !! k = Some x → (size x ≤ list_sum (map size cs))%nat.
Proof.
  revert k. induction cs as [|y cs IH]; intros [|k] Hk; try done;
    change (size x ≤ size y + list_sum (map size cs))%nat.
  - injection Hk as ->. lia.
  - specialize (IH k Hk). lia.
Qed.

(** An element is larger than the elements inside it. *)
Lemma size_node_at q : ∀ n k m,
  node_at n (k :: q) = Some m → (size m < size n)%nat.
Proof.
  induction q as [|k' q IH]; intros n k m Hq;
    destruct n as [nm ats c cs|s|s]; try done;
    cbn [node_at] in Hq; destruct (cs !! k) as [x|] eqn:Hk; try done.
  - injection Hq as <-. cbn [size]. pose proof (size_lookup _ _ _ Hk). lia.
  - change (node_at x (k' :: q) = Some m) in Hq. apply IH in Hq.
    cbn [size]. pose proof (size_lookup _ _ _ Hk). lia.
Qed.

End OrderFacts.

(** ** The merger *)

Module MergerFacts.

Import SoupFacts OrderFacts CacheFacts SnapshotFacts.

Lemma grandparent_split hp g :
  grandparent hp = Some g → ∃ i j, hp = g ++ [i; j].
Proof.
  unfold grandparent, parent. destruct hp as [|a hp]; [done|].
  cbn [mbind option_bind].
  destruct (exists_last (l := a :: hp)) as (l1 & j & E); [done|].
  rewrite E, removelast_last. destruct l1 as [|b l1]; [done|].
  destruct (exists_last (l := b :: l1)) as (l2 & i & E'); [done|].
  rewrite E', removelast_last. intros [= <-]. exists i, j.
  by rewrite <- app_assoc.
Qed.

Lemma matches_hero_py_eq k x y :
  py_eq x y = true → matches_hero k x = matches_hero k y.
Proof.
  destruct x as [n1 a1 c1 k1|s|s], y as [n2 a2 c2 k2|s'|s']; try done.
  rewrite py_eq_Tag, !andb_true_iff, !bool_decide_eq_true.
  intros [[[-> Hd] _] _]. cbn [matches_hero].
  by rewrite (dict_eqb_get _ _ "id" Hd).
Qed.

Lemma name_class_filter_py_eq nm classes x y :
  py_eq x y = true →
  name_class_filter nm classes x = name_class_filter nm classes y.
Proof.
  destruct x as [n1 a1 c1 k1|s|s], y as [n2 a2 c2 k2|s'|s']; try done.
  rewrite py_eq_Tag, !andb_true_iff, !bool_decide_eq_true.
  by intros [[[-> _] ->] _].
Qed.

(** The comparison with [==] of the faction test singles out the element
    itself: the hero's section equals the first section that passes the
    class filter exactly when it is that section. *)
Lemma faction_by_position page k hp ht rest g section classes :
  find_all (matches_hero k) page = (hp, ht) :: rest →
  grandparent hp = Some g →
  node_at (document page) g = Some section →
  class_of section = Some classes →
  faction_of page section classes = "Radiant"
  ↔ first_such_section page classes g.
Proof.
  intros Hhero Hg Hsec Hcls.
  assert (g ≠ []) as Hroot by (intros ->; by injection Hsec as <-).
  pose proof (descendants_complete _ _ _ Hroot Hsec) as Hgin.
  unfold faction_of, find, first_such_section.
  destruct (find_all (name_class_filter "div" classes) page)
    as [|[f nf] others] eqn:Hfind; cbn [head].
  { split; [done|]. by intros (? & ? & ?). }
  destruct (find_all_head _ _ _ _ Hfind) as [Hfin Hfpass].
  destruct (descendants_sound _ _ _ Hfin) as [_ Hfat]. cbn [snd] in Hfpass.
  split.
  - destruct (py_eq section nf) eqn:Heq; [intros _|done].
    enough (f = g) as -> by (by exists nf, others).
    assert (name_class_filter "div" classes section = true) as Hpass.
    { by rewrite (name_class_filter_py_eq _ _ _ _ Heq). }
    destruct (find_all_first _ _ _ _ (g, section) Hfind Hgin Hpass)
      as [[= -> _]|Hbefore]; [done|].
    exfalso. unfold earlier in Hbefore. cbn [fst] in Hbefore.
    destruct (before_cases _ _ Hbefore) as [(i & r & ->)|Hdiv].
    + rewrite node_at_app, Hfat in Hsec. cbn [mbind option_bind] in Hsec.
      apply size_node_at in Hsec. apply py_eq_size in Heq. lia.
    + destruct (grandparent_split _ _ Hg) as (i & j & ->).
      destruct (find_all_head _ _ _ _ Hhero) as [Hhin Hhpass].
      destruct (descendants_sound _ _ _ Hhin) as [_ Hhat].
      rewrite node_at_app, Hsec in Hhat. cbn [mbind option_bind] in Hhat.
      destruct (py_eq_node_at _ _ _ _ Heq Hhat) as (ht' & Hat' & Heq').
      assert ((f ++ [i; j], ht') ∈ descendants page) as Hin'.
      { apply descendants_complete; [by destruct f|].
        rewrite node_at_app, Hfat. exact Hat'. }
      cbn [snd] in Hhpass.
      rewrite (matches_hero_py_eq _ _ _ Heq') in Hhpass.
      destruct (find_all_first _ _ _ _ _ Hhero Hin' Hhpass)
        as [[= E _]|Hlater].
      * apply (before_irrefl (g ++ [i; j])). rewrite E at 1. apply Hdiv.
      * apply (before_asym _ _ (Hdiv [i; j] [i; j]) Hlater).
  - intros (n & rest' & [= -> _ _]).
    replace nf with section by congruence. by rewrite py_eq_refl.
Qed.

Lemma faction_two_valued page section classes :
  faction_of page section classes = "Radiant"
  ∨ faction_of page section classes = "Dire".
Proof.
  unfold faction_of. destruct (find _ page) as [[? first]|]; [|by right].
  destruct (py_eq section first); [by left|by right].
Qed.

Section WithCollaborators.

Context `{Collaborators}.

(** [get_hero_info] reads the page and decides on it. *)
Lemma get_hero_info_run k w :
  get_hero_info k w
  = (match hero_info_in (page_of w) k with
     | Return r => Return r
     | Raise e => Raise e
     end, after_page w).
Proof.
  unfold get_hero_info, after_page. run.
  destruct (get_web_page_default w) as (w1 & -> & _). cbn [snd].
  by destruct (hero_info_in (page_of w) k).
Qed.

Lemma get_hero_info_no_fragment k w :
  find_all (matches_hero k) (page_of w) = [] →
  get_hero_info k w = (Raise IndexError, after_page w).
Proof.
  intros Hno. rewrite get_hero_info_run. unfold hero_info_in.
  by rewrite Hno.
Qed.

Lemma dict_get_key {V} k (d : list (string * V)) :
  k ∈ map fst d → is_Some (dict_get k d).
Proof.
  induction d as [|[k' v] d IH]; cbn [map fst dict_get].
  - by intros ?%elem_of_nil.
  - intros Hin. case_bool_decide; [eauto|].
    apply IH. apply elem_of_cons in Hin as [->|Hin]; done.
Qed.

(** The generator over a list of keys, cut after a prefix that it gets
    through. *)
Lemma heroes_from_app jsonObj ks1 : ∀ ks2 w hs w1,
  heroes_from jsonObj ks1 w = ((hs, None), w1) →
  heroes_from jsonObj (ks1 ++ ks2) w
  = (let '((hs', r), w2) := heroes_from jsonObj ks2 w1 in
     ((hs ++ hs', r), w2)).
Proof.
  induction ks1 as [|k ks1 IH]; intros ks2 w hs w1 Hrun.
  - injection Hrun as <- <-. cbn [app].
    by destruct (heroes_from jsonObj ks2 w) as [[hs' r] w2].
  - cbn [app heroes_from] in *.
    destruct (dict_get k jsonObj) as [e|]; [|done].
    destruct (get_hero_info k w) as [[[[ic at'] fa]|ex] w'] eqn:Hinfo;
      [|done].
    destruct (heroes_from jsonObj ks1 w') as [[hs1 r1] w1'] eqn:Hrest.
    injection Hrun as <- -> <-.
    rewrite (IH ks2 w' hs1 w1' Hrest).
    by destruct (heroes_from jsonObj ks2 w1') as [[hs' r] w2].
Qed.

(** C8: for a key that no fragment of the page matches, [get_hero_info]
    raises [IndexError], a [LookupError]; and when the generator
    [get_all_heroes] reaches such a key, having yielded the records [hs]
    of the keys before it, the iteration ends with that error and the
    records yielded stand. *)
Theorem missing_fragment_raises_LookupError (w : world) (k : string) :
  find_all (matches_hero k) (page_of w) = [] →
  get_hero_info k w = (Raise IndexError, after_page w)
  ∧ is_LookupError IndexError = true
  ∧ ∀ w_start jsonObj w0 ks1 ks2 hs,
      get_json_list default_json_url "" w_start = (Return jsonObj, w0) →
      map fst jsonObj = ks1 ++ k :: ks2 →
      heroes_from jsonObj ks1 w0 = ((hs, None), w) →
      get_all_heroes w_start = ((hs, Some IndexError), after_page w).
Proof.
  intros Hno. split; [by apply get_hero_info_no_fragment|].
  split; [done|].
  intros w_start jsonObj w0 ks1 ks2 hs Hfeed Hkeys Hprefix.
  unfold get_all_heroes. rewrite Hfeed, Hkeys.
  rewrite (heroes_from_app _ _ _ _ _ _ Hprefix). cbn [heroes_from].
  destruct (dict_get_key k jsonObj) as [e ->].
  { rewrite Hkeys. apply elem_of_app. right. by left. }
  rewrite (get_hero_info_no_fragment _ _ Hno). by rewrite app_nil_r.
Qed.

(** C6, amended: for a hero key whose first matching fragment holds an
    image with a source and lies two levels below an element that carries
    a class attribute, [get_hero_info] returns; the attribute is Strength,
    Agility or Intelligence as that element's classes name the left,
    middle or right column, in that order of preference, and unset when
    they name none; the faction is Radiant exactly when that element is
    the first [div] of the page, in page order, that shares a class with
    it, and Dire otherwise. *)
Theorem hero_info_column_and_faction (w : world) (heroName : string)
    (hero_path : path) (hero_tag : node) (rest : list (path * node))
    (img_src : string) (g : path) (section : node)
    (classes : list string) :
  find_all (matches_hero heroName) (page_of w)
  = (hero_path, hero_tag) :: rest →
  first_child_named "img" hero_tag ≫= attr_of "src" = Some img_src →
  grandparent hero_path = Some g →
  node_at (document (page_of w)) g = Some section →
  class_of section = Some classes →
  ∃ attribute faction,
    get_hero_info heroName w
    = (Return (img_src, attribute, faction), after_page w)
    ∧ ("heroColLeft" ∈ classes → attribute = Some "Strength")
    ∧ ("heroColLeft" ∉ classes → "heroColMiddle" ∈ classes →
       attribute = Some "Agility")
    ∧ ("heroColLeft" ∉ classes → "heroColMiddle" ∉ classes →
       "heroColRight" ∈ classes → attribute = Some "Intelligence")
    ∧ ("heroColLeft" ∉ classes → "heroColMiddle" ∉ classes →
       "heroColRight" ∉ classes → attribute = None)
    ∧ (faction = "Radiant" ↔ first_such_section (page_of w) classes g)
    ∧ (faction = "Dire" ↔ ¬ first_such_section (page_of w) classes g).
Proof.
  intros Hhero Himg Hg Hsec Hcls.
  exists (attribute_of_classes classes),
         (faction_of (page_of w) section classes).
  split.
  { rewrite get_hero_info_run. unfold hero_info_in. rewrite Hhero.
    destruct (first_child_named "img" hero_tag) as [img|]; [|done].
    cbn [mbind option_bind] in Himg. by rewrite Himg, Hg, Hsec, Hcls. }
  pose proof (faction_by_position _ _ _ _ _ _ _ _ Hhero Hg Hsec Hcls)
    as Hfaction.
  unfold attribute_of_classes.
  repeat split; try (intros; repeat case_bool_decide; done);
    try apply Hfaction.
  - intros Hdire Hfirst%Hfaction. congruence.
  - intros Hnot.
    destruct (faction_two_valued (page_of w) section classes) as [Hr|Hd];
      [|done].
    by apply Hfaction in Hr.
Qed.

End WithCollaborators.

End MergerFacts.

(** ** The properties at concrete inputs *)

Module Scenarios.

Import Reference Examples.
Import CacheFacts SnapshotFacts MergerFacts.

(** The role scenario of the specification: a record with roles Carry and
    Durable passes a request for either or both, and not one that also
    asks for Initiator. *)
Example roles_scenario :
  find_heroes "" None (Some ["Carry"]) None [axe] = [axe]
  ∧ find_heroes "" None (Some ["Carry"; "Durable"]) None [axe] = [axe]
  ∧ find_heroes "" None (Some ["Carry"; "Initiator"]) None [axe] = [].
Proof. vm_compute. by repeat split. Qed.

Example not_found_scenario :
  find_first_hero "nonexistent_key" None None None [axe] = None.
Proof. reflexivity. Qed.

(** The merge scenario of the specification. *)
Example merge_scenario :
  fst (get_all_heroes (cached axe_feed heroes_page "" ∅)) = ([axe], None).
Proof. vm_compute. reflexivity. Qed.

Lemma set_language_keeps_stale_cache_witness :
  set_language "french" (cached axe_feed heroes_page "" ∅)
  = (Return tt,
     set_cached_language "french" (cached axe_feed heroes_page "" ∅))
  ∧ requests_log
      (snd (set_language "french" (cached axe_feed heroes_page "" ∅)))
    = []
  ∧ _cached_bs_page
      (snd (set_language "french" (cached axe_feed heroes_page "" ∅)))
    = Some heroes_page
  ∧ _cached_json
      (snd (set_language "french" (cached axe_feed heroes_page "" ∅)))
    = Some axe_feed.
Proof.
  apply (set_language_keeps_stale_cache
           (cached axe_feed heroes_page "" ∅) "french" heroes_page axe_feed);
    [reflexivity|reflexivity|discriminate].
Defined.

Lemma read_disk_cache_failure_resets_language_witness :
  _cached_language (cached axe_feed heroes_page "french" half_snapshot)
  = "french"
  ∧ ∃ w',
      read_disk_cache jspath webpath
        (cached axe_feed heroes_page "french" half_snapshot)
      = (Return tt, w')
      ∧ _cached_json w' = Some axe_feed
      ∧ _cached_bs_page w' = Some heroes_page
      ∧ _cached_language w' = ""
      ∧ stdout w' = ["Could not load from disk."].
Proof.
  split; [reflexivity|].
  apply (read_disk_cache_failure_resets_language
           (cached axe_feed heroes_page "french" half_snapshot)
           jspath webpath).
  right. intros [data Hdata]. vm_compute in Hdata. discriminate.
Defined.


Lemma saves_accumulate_markers_witness :
  ∃ w' page',
    saves 2 jspath webpath (cached axe_feed heroes_page "french" ∅)
    = (Return tt, w')
    ∧ append_markers 2 "french" heroes_page = Some page'
    ∧ _cached_bs_page w' = Some page'
    ∧ marker_count page' = marker_count heroes_page + 2
    ∧ disk w' !! webpath = Some (Regular (Some (prettify page'))).
Proof.
  apply (saves_accumulate_markers 1
           (cached axe_feed heroes_page "french" ∅) jspath webpath).
  - vm_compute. discriminate.
  - vm_compute. discriminate.
  - discriminate.
  - vm_compute. reflexivity.
  - vm_compute. eexists. reflexivity.
Defined.



(** C6 fails as stated: the key has a first matching fragment, and the
    element two levels above it carries no class attribute; the merger
    raises [KeyError] where the claim has it return an unset attribute. *)
Lemma classless_section_raises :
  find_all (matches_hero "npc_dota_hero_axe") classless_page
  = [([0; 0; 0], hero_link "link_npc_dota_hero_axe" "axe.png")]
  ∧ get_hero_info "npc_dota_hero_axe" (cached axe_feed classless_page "" ∅)
    = (Raise KeyError, cached axe_feed classless_page "" ∅).
Proof. vm_compute. by split. Qed.

Lemma hero_info_column_and_faction_witness :
  ∃ attribute faction,
    get_hero_info "npc_dota_hero_lycan" (cached axe_feed heroes_page "" ∅)
    = (Return ("lycan.png", attribute, faction),
       after_page (cached axe_feed heroes_page "" ∅))
    ∧ ("heroColLeft" ∈ ["heroColLeft"] → attribute = Some "Strength")
    ∧ ("heroColLeft" ∉ ["heroColLeft"] → "heroColMiddle" ∈ ["heroColLeft"] →
       attribute = Some "Agility")
    ∧ ("heroColLeft" ∉ ["heroColLeft"] → "heroColMiddle" ∉ ["heroColLeft"] →
       "heroColRight" ∈ ["heroColLeft"] → attribute = Some "Intelligence")
    ∧ ("heroColLeft" ∉ ["heroColLeft"] → "heroColMiddle" ∉ ["heroColLeft"] →
       "heroColRight" ∉ ["heroColLeft"] → attribute = None)
    ∧ (faction = "Radiant"
       ↔ first_such_section heroes_page ["heroColLeft"] [0; 1; 2])
    ∧ (faction = "Dire"
       ↔ ¬ first_such_section heroes_page ["heroColLeft"] [0; 1; 2]).
Proof.
  apply (hero_info_column_and_faction
           (cached axe_feed heroes_page "" ∅) "npc_dota_hero_lycan"
           [0; 1; 2; 0; 0] (hero_link "link_npc_dota_hero_lycan" "lycan.png")
           [] "lycan.png" [0; 1; 2]
           (column ["heroColLeft"]
              [hero_link "link_npc_dota_hero_lycan" "lycan.png"])
           ["heroColLeft"]).
  - vm_compute. reflexivity.
  - vm_compute. reflexivity.
  - reflexivity.
  - reflexivity.
  - reflexivity.
Defined.

Lemma missing_fragment_raises_LookupError_witness :
  get_hero_info "npc_dota_hero_ghost" (cached ghost_feed heroes_page "" ∅)
  = (Raise IndexError, after_page (cached ghost_feed heroes_page "" ∅))
  ∧ get_all_heroes (cached ghost_feed heroes_page "" ∅)
    = (([axe], Some IndexError),
       after_page (cached ghost_feed heroes_page "" ∅)).
Proof.
  destruct (missing_fragment_raises_LookupError
              (cached ghost_feed heroes_page "" ∅) "npc_dota_hero_ghost")
    as (Hinfo & _ & Hall).
  - vm_compute. reflexivity.
  - split; [exact Hinfo|].
    apply (Hall (cached ghost_feed heroes_page "" ∅) ghost_feed
                (cached ghost_feed heroes_page "" ∅)
                ["npc_dota_hero_axe"] [] [axe]).
    + vm_compute. reflexivity.
    + reflexivity.
    + vm_compute. reflexivity.
Defined.

End Scenarios.

(** ** More on the filter engine *)

Module FilterMore.

Import FilterFacts.

(** X1: the criteria can be applied one at a time: filtering by attack,
    then by roles, then by attribute, then by name gives what one call
    with all four criteria gives. *)
Theorem find_heroes_in_stages (name_c : string) (attribute : option string)
    (role : option (list string)) (attack_c : option string)
    (hlist : list Hero) :
  find_heroes name_c attribute role attack_c hlist
  = find_heroes name_c None None None
      (find_heroes "" attribute None None
         (find_heroes "" None role None
            (find_heroes "" None None attack_c hlist))).
Proof.
  rewrite !find_heroes_filter, !list_filter_filter.
  apply list_filter_iff. intros h. unfold meets_criteria.
  destruct role; tauto.
Qed.

(** X2: the requested roles count as a set: two role lists with the same
    members select the same records, and an empty role list selects what
    no role criterion selects. *)
Theorem find_heroes_roles_as_set (name_c : string) (attribute : option string)
    (r r' : list string) (attack_c : option string) (hlist : list Hero) :
  (∀ x, x ∈ r ↔ x ∈ r') →
  find_heroes name_c attribute (Some r) attack_c hlist
  = find_heroes name_c attribute (Some r') attack_c hlist
  ∧ find_heroes name_c attribute (Some []) attack_c hlist
    = find_heroes name_c attribute None attack_c hlist.
Proof.
  intros Hsame. rewrite !find_heroes_filter. split.
  - apply list_filter_iff. intros h. unfold meets_criteria.
    assert (r ⊆ roles h ↔ r' ⊆ roles h) as Hsub; [|tauto].
    split; intros Hs x Hx; apply Hs, Hsame, Hx.
  - apply list_filter_iff. intros h. unfold meets_criteria.
    assert ([] ⊆ roles h) by (intros x Hx; by apply elem_of_nil in Hx).
    tauto.
Qed.

(** X3: asking for more roles only narrows the result: the records found
    for a larger role list are among those found for a smaller one, in
    the same order. *)
Theorem find_heroes_more_roles_narrow (name_c : string)
    (attribute : option string) (r r' : list string)
    (attack_c : option string) (hlist : list Hero) :
  r ⊆ r' →
  sublist (find_heroes name_c attribute (Some r') attack_c hlist)
          (find_heroes name_c attribute (Some r) attack_c hlist).
Proof.
  intros Hsub. rewrite !find_heroes_filter.
  rewrite <- (list_filter_filter_l
                (meets_criteria name_c attribute (Some r') attack_c)
                (meets_criteria name_c attribute (Some r) attack_c)).
  - apply sublist_filter.
  - intros h. unfold meets_criteria. intros (? & ? & Hr & ?).
    repeat split; try done. intros x Hx. by apply Hr, Hsub.
Qed.

(** X4: filtering goes through concatenation, and filtering a result
    again with the same criteria changes nothing. *)
Theorem find_heroes_app_idempotent (name_c : string)
    (attribute : option string) (role : option (list string))
    (attack_c : option string) (l1 l2 : list Hero) :
  find_heroes name_c attribute role attack_c (l1 ++ l2)
  = find_heroes name_c attribute role attack_c l1
    ++ find_heroes name_c attribute role attack_c l2
  ∧ find_heroes name_c attribute role attack_c
      (find_heroes name_c attribute role attack_c l1)
    = find_heroes name_c attribute role attack_c l1.
Proof.
  rewrite !find_heroes_filter. split; [apply filter_app|].
  by apply list_filter_filter_l.
Qed.

(** X5: a record of the list is found by its key: [find_first_hero] with
    that key returns a record, and returns that very record when no other
    record of the list has the key as its key or as its name. *)
Theorem find_first_hero_by_key (hlist : list Hero) (h : Hero) :
  h ∈ hlist →
  (∃ h', find_first_hero (key h) None None None hlist = Some h')
  ∧ (key h ≠ "" →
     (∀ h', h' ∈ hlist → name h' = key h ∨ key h' = key h → h' = h) →
     find_first_hero (key h) None None None hlist = Some h).
Proof.
  intros Hin.
  assert (meets_criteria (key h) None None None h) as Hmeets.
  { unfold meets_criteria. tauto. }
  pose proof (filter_head_split (key h) None None None hlist) as Hfirst.
  unfold find_first_hero. rewrite find_heroes_filter.
  destruct (filter _ hlist) as [|h' others].
  - exfalso. by apply (proj1 (Forall_forall _ _) Hfirst h).
  - split; [by exists h'|]. intros Hkey Huniq.
    destruct Hfirst as (earlier & later & -> & Hm & _).
    f_equal. apply Huniq; [apply elem_of_app; right; by left|].
    destruct Hm as ([?|[?|?]] & _); [done|by left|by right].
Qed.

End FilterMore.

(** ** More on the cache *)

Module CacheMore.

Import CacheFacts.

Section WithCollaborators.

Context `{Collaborators}.

(** X6: [get_web_page] returns the page it leaves in the cache and
    touches nothing but the cached page and the request log.  With a page
    in the cache and a language that is empty or the recorded one it
    changes nothing at all; otherwise it issues exactly one request, for
    the URL with the language as given, and caches the answer. *)
Theorem get_web_page_fetch_policy (url lang : string) (w : world) :
  ∃ p w',
    get_web_page url lang w = (Return p, w')
    ∧ _cached_bs_page w' = Some p
    ∧ _cached_json w' = _cached_json w
    ∧ _cached_language w' = _cached_language w
    ∧ disk w' = disk w
    ∧ stdout w' = stdout w
    ∧ ((_cached_bs_page w = Some p
        ∧ (lang = "" ∨ _cached_language w = lang) ∧ w' = w)
       ∨ ((_cached_bs_page w = None
           ∨ (lang ≠ "" ∧ _cached_language w ≠ lang))
          ∧ p = BeautifulSoup (requests_get_text (url ++ "?l=" ++ lang))
          ∧ requests_log w'
            = requests_log w ++ [(url ++ "?l=" ++ lang)%string])).
Proof.
  destruct (_cached_bs_page w) as [p0|] eqn:Hp.
  - destruct (decide (lang = "")) as [Hl|Hl].
    + exists p0, w. rewrite (get_web_page_cached _ _ _ p0) by tauto.
      repeat split; try done. left. tauto.
    + destruct (decide (_cached_language w = lang)) as [Hc|Hc].
      * exists p0, w. rewrite (get_web_page_cached _ _ _ p0) by tauto.
        repeat split; try done. left. tauto.
      * do 2 eexists. rewrite get_web_page_other_language by done.
        repeat split; try reflexivity. right. by repeat split; [right|..].
  - do 2 eexists. rewrite get_web_page_empty by done.
    repeat split; try reflexivity. right. by repeat split; [left|..].
Qed.

(** X7: [get_json_list] follows the same policy for the feed: it returns
    the feed it leaves in the cache, touches nothing but the cached feed
    and the request log, and fetches exactly when the cache holds no feed
    or a language is named that is not the recorded one. *)
Theorem get_json_list_fetch_policy (url lang : string) (w : world) :
  ∃ j w',
    get_json_list url lang w = (Return j, w')
    ∧ _cached_json w' = Some j
    ∧ _cached_bs_page w' = _cached_bs_page w
    ∧ _cached_language w' = _cached_language w
    ∧ disk w' = disk w
    ∧ stdout w' = stdout w
    ∧ ((_cached_json w = Some j
        ∧ (lang = "" ∨ _cached_language w = lang) ∧ w' = w)
       ∨ ((_cached_json w = None
           ∨ (lang ≠ "" ∧ _cached_language w ≠ lang))
          ∧ j = requests_get_json (url ++ "?l=" ++ lang)
          ∧ requests_log w'
            = requests_log w ++ [(url ++ "?l=" ++ lang)%string])).
Proof.
  destruct (_cached_json w) as [j0|] eqn:Hj.
  - destruct (decide (lang = "")) as [Hl|Hl].
    + exists j0, w. rewrite (get_json_list_cached _ _ _ j0) by tauto.
      repeat split; try done. left. tauto.
    + destruct (decide (_cached_language w = lang)) as [Hc|Hc].
      * exists j0, w. rewrite (get_json_list_cached _ _ _ j0) by tauto.
        repeat split; try done. left. tauto.
      * do 2 eexists. unfold get_json_list, http_json. run.
        rewrite Hj, !bool_decide_eq_true_2 by done. cbn [andb].
        repeat split; try reflexivity. right. by repeat split; [right|..].
  - do 2 eexists. rewrite get_json_list_empty by done.
    repeat split; try reflexivity. right. by repeat split; [left|..].
Qed.

(** X8: a read that names a language other than the recorded one does not
    record it: asked twice in a row, [get_web_page] fetches twice. *)
Theorem get_web_page_named_language_refetches (url lang : string)
    (w : world) :
  lang ≠ "" →
  _cached_language w ≠ lang →
  requests_log
    (snd (get_web_page url lang (snd (get_web_page url lang w))))
  = requests_log w
    ++ [(url ++ "?l=" ++ lang)%string; (url ++ "?l=" ++ lang)%string]
  ∧ _cached_language
      (snd (get_web_page url lang (snd (get_web_page url lang w))))
    = _cached_language w.
Proof.
  intros Hl Hc. rewrite (get_web_page_other_language url lang w) by done.
  cbn [snd]. rewrite get_web_page_other_language by done.
  cbn. by rewrite <- app_assoc.
Qed.

(** X9: [set_language] with the recorded language changes nothing and
    fetches nothing, also when the cache is empty. *)
Theorem set_language_recorded_language_noop (w : world) :
  set_language (_cached_language w) w = (Return tt, w).
Proof.
  unfold set_language. run. by rewrite bool_decide_eq_false_2 by tauto.
Qed.

(** X10: [set_language] with another language records it and fetches, in
    that language, just the parts of the cache that are empty, the page
    before the feed; what the cache holds is kept as it is. *)
Theorem set_language_fetches_empty_parts (lang : string) (w : world) :
  _cached_language w ≠ lang →
  ∃ w',
    set_language lang w = (Return tt, w')
    ∧ _cached_language w' = lang
    ∧ _cached_bs_page w'
      = Some (default
                (BeautifulSoup
                   (requests_get_text (default_url ++ "?l=" ++ lang)))
                (_cached_bs_page w))
    ∧ _cached_json w'
      = Some (default (requests_get_json (default_json_url ++ "?l=" ++ lang))
                      (_cached_json w))
    ∧ requests_log w'
      = requests_log w
        ++ match _cached_bs_page w with
           | Some _ => []
           | None => [(default_url ++ "?l=" ++ lang)%string]
           end
        ++ match _cached_json w with
           | Some _ => []
           | None => [(default_json_url ++ "?l=" ++ lang)%string]
           end
    ∧ disk w' = disk w
    ∧ stdout w' = stdout w.
Proof.
  intros Hl. unfold set_language. run.
  rewrite bool_decide_eq_true_2 by done.
  destruct (_cached_bs_page w) as [p|] eqn:Hp;
    destruct (_cached_json w) as [j|] eqn:Hj.
  - rewrite (get_web_page_cached _ _ _ p) by (by try right).
    rewrite (get_json_list_cached _ _ _ j) by (by try right).
    eexists. split; [reflexivity|]. cbn.
    rewrite ?Hp, ?Hj, ?app_nil_r, <- ?app_assoc. by repeat split.
  - rewrite (get_web_page_cached _ _ _ p) by (by try right).
    rewrite get_json_list_empty by done.
    eexists. split; [reflexivity|]. cbn.
    rewrite ?Hp, ?Hj, ?app_nil_r, <- ?app_assoc. by repeat split.
  - rewrite get_web_page_empty by done.
    rewrite (get_json_list_cached _ _ _ j) by (by try right).
    eexists. split; [reflexivity|]. cbn.
    rewrite ?Hp, ?Hj, ?app_nil_r, <- ?app_assoc. by repeat split.
  - rewrite get_web_page_empty by done.
    rewrite get_json_list_empty by done.
    eexists. split; [reflexivity|]. cbn.
    rewrite ?Hp, ?Hj, ?app_nil_r, <- ?app_assoc. by repeat split.
Qed.

End WithCollaborators.

End CacheMore.

(** ** More on the disk snapshot *)

Module SnapshotMore.

Import SoupFacts CacheFacts SnapshotFacts.

Lemma split_on_nonempty sep s : ∃ x r, split_on sep s = x :: r.
Proof.
  induction s as [|c t (x & r & IH)]; cbn [split_on]; [by eexists _, _|].
  destruct (Ascii.eqb c sep); [by eexists _, _|].
  rewrite IH. by eexists _, _.
Qed.

(** A marker is the text [LANGUAGE=] and something after it. *)
Lemma language_comment_shape l :
  is_language_comment l = true → ∃ rest, l = ("LANGUAGE=" ++ rest)%string.
Proof.
  unfold is_language_comment. rewrite bool_decide_eq_true.
  intros Hp. apply (prefix_correct "LANGUAGE=" l) in Hp.
  do 9 (destruct l as [|? l]; [discriminate|]; cbn [String.prefix] in Hp;
        destruct (ascii_dec _ _) as [<-|]; [|discriminate]).
  by exists l.
Qed.

Lemma marker_field rest :
  split_on "="%char ("LANGUAGE=" ++ rest)
  = "LANGUAGE" :: split_on "="%char rest.
Proof. unfold String.append. reflexivity. Qed.

Lemma language_comment_field l :
  is_language_comment l = true →
  ∃ rest lang,
    l = ("LANGUAGE=" ++ rest)%string
    ∧ head (split_on "="%char rest) = Some lang
    ∧ split_on "="%char l !! 1%nat = Some lang.
Proof.
  intros (rest & ->)%language_comment_shape.
  destruct (split_on_nonempty "="%char rest) as (x & r & E).
  exists rest, x. rewrite marker_field, E. by repeat split.
Qed.

(** Whether a document has a head does not depend on what is appended. *)
Lemma append_in_none new new' n :
  append_in new n = None → append_in new' n = None.
Proof.
  induction n as [nm ats c cs IH|s|s] using node_ind'; [|done..].
  cbn [append_in]. destruct (bool_decide (nm = "head")); [done|].
  intros Hnone. apply fmap_None in Hnone. apply fmap_None.
  induction IH as [|x cs Hx _ IHcs]; [done|].
  destruct (append_in new x) as [x'|] eqn:Hx'; [done|].
  rewrite (Hx eq_refl). apply fmap_None in Hnone.
  apply fmap_None. by apply IHcs.
Qed.

Lemma head_append_none new new' d :
  head_append new d = None → head_append new' d = None.
Proof.
  induction d as [|x d IH]; [done|]. cbn [head_append].
  destruct (append_in new x) as [x'|] eqn:Hx; [done|].
  rewrite (append_in_none _ new' _ Hx). intros Hnone%fmap_None.
  apply fmap_None. by apply IH.
Qed.

(** Two appends to the head are one append of both. *)
Lemma append_in_twice n1 n2 x x1 :
  append_in n1 x = Some x1 → append_in n2 x1 = append_in (n1 ++ n2) x.
Proof.
  revert x1. induction x as [nm ats c cs IH|s|s] using node_ind';
    intros x1 Happ; [|discriminate..].
  cbn [append_in] in *. destruct (bool_decide (nm = "head")) eqn:Hnm.
  - injection Happ as <-. cbn [append_in]. rewrite Hnm.
    by rewrite <- app_assoc.
  - match type of Happ with
    | _ <$> ?r = _ => destruct r as [cs1|] eqn:Hcs; [|discriminate]
    end.
    injection Happ as <-. cbn [append_in]. rewrite Hnm. f_equal.
    clear -IH Hcs. revert cs1 Hcs.
    induction IH as [|y cs Hy _ IHcs]; intros cs1 Hcs; [discriminate|].
    destruct (append_in n1 y) as [y1|] eqn:Hy1.
    + injection Hcs as <-. simpl. rewrite (Hy y1 eq_refl).
      destruct (append_in (n1 ++ n2) y) eqn:Hboth; [done|].
      apply (append_in_none _ n1) in Hboth. congruence.
    + match type of Hcs with
      | _ <$> ?r = _ => destruct r as [cs2|] eqn:Hcs2; [|discriminate]
      end.
      injection Hcs as <-. simpl.
      rewrite (append_in_none _ n2 _ Hy1), (append_in_none _ (n1 ++ n2) _ Hy1).
      by rewrite (IHcs cs2 eq_refl).
Qed.

Lemma head_append_twice n1 n2 d d1 :
  head_append n1 d = Some d1 → head_append n2 d1 = head_append (n1 ++ n2) d.
Proof.
  revert d1. induction d as [|x d IH]; intros d1 Happ; [discriminate|].
  cbn [head_append] in *. destruct (append_in n1 x) as [x1|] eqn:Hx.
  - injection Happ as <-. cbn [head_append].
    rewrite (append_in_twice _ n2 _ _ Hx).
    destruct (append_in (n1 ++ n2) x) eqn:Hboth; [done|].
    apply (append_in_none _ n1) in Hboth. congruence.
  - destruct (head_append n1 d) as [d2|] eqn:Hd; [|discriminate].
    injection Happ as <-. cbn [head_append].
    rewrite (append_in_none _ n2 _ Hx), (append_in_none _ (n1 ++ n2) _ Hx).
    by rewrite (IH d2 eq_refl).
Qed.

Section WithCollaborators.

Context `{Collaborators}.

(** X11: with both files readable, the feed file holding a feed and the
    document holding a language marker, [read_disk_cache] returns with the
    loaded feed and document in the cache and, as language, the text of
    the first marker after [LANGUAGE=] up to the next [=]; it prints
    nothing, issues no request and leaves the files alone. *)
Theorem read_disk_cache_loads (w : world) (jspath webpath : string)
    (jsdata webdata : option text) (j : Feed.json) (l : string) :
  disk w !! jspath = Some (Regular jsdata) →
  disk w !! webpath = Some (Regular webdata) →
  jsdata ≫= json_loads = Some j →
  find_language_comment (load_page webdata) = Some l →
  ∃ rest lang w',
    l = ("LANGUAGE=" ++ rest)%string
    ∧ head (split_on "="%char rest) = Some lang
    ∧ read_disk_cache jspath webpath w = (Return tt, w')
    ∧ _cached_json w' = Some j
    ∧ _cached_bs_page w' = Some (load_page webdata)
    ∧ _cached_language w' = lang
    ∧ stdout w' = stdout w
    ∧ requests_log w' = requests_log w
    ∧ disk w' = disk w.
Proof.
  intros Hjs Hweb Hj Hfind.
  assert (is_language_comment l = true) as Hl.
  { unfold find_language_comment in Hfind. by apply find_some in Hfind as [_ ?]. }
  destruct (language_comment_field l Hl) as (rest & lang & -> & Hhead & Hlang).
  assert (load_json jsdata = ret j) as Hload.
  { unfold load_json. by rewrite Hj. }
  exists rest, lang. eexists. split; [done|]. split; [done|]. split.
  - unfold read_disk_cache. run.
    rewrite (open_r_regular jspath _ jsdata) by exact Hjs.
    rewrite (open_r_regular webpath _ webdata) by exact Hweb.
    rewrite Hload. run. rewrite Hfind, Hlang. reflexivity.
  - by repeat split.
Qed.

(** X12: whatever the files hold, [read_disk_cache] issues no request and
    changes no file, and it ends in one of three ways: it returns, or it
    raises [ValueError] (the feed file is not a feed) or [AttributeError]
    (the document has no marker); [IOError] never gets out, and the
    [split] of the marker never runs out of fields. *)
Theorem read_disk_cache_frame (w : world) (jspath webpath : string) :
  requests_log (snd (read_disk_cache jspath webpath w)) = requests_log w
  ∧ disk (snd (read_disk_cache jspath webpath w)) = disk w
  ∧ (fst (read_disk_cache jspath webpath w) = Return tt
     ∨ fst (read_disk_cache jspath webpath w) = Raise ValueError
     ∨ fst (read_disk_cache jspath webpath w) = Raise AttributeError).
Proof.
  destruct (readable_cases (disk w) jspath) as [[jsdata Hjs]|Hjs];
    [destruct (readable_cases (disk w) webpath) as [[webdata Hweb]|Hweb]|].
  - destruct (jsdata ≫= json_loads) as [j|] eqn:Hj.
    + destruct (find_language_comment (load_page webdata)) as [l|] eqn:Hfind.
      * assert (is_language_comment l = true) as Hl.
        { unfold find_language_comment in Hfind.
          by apply find_some in Hfind as [_ ?]. }
        destruct (language_comment_field l Hl) as (rest & lang & _ & _ & Hlang).
        assert (load_json jsdata = ret j) as Hload.
        { unfold load_json. by rewrite Hj. }
        unfold read_disk_cache. run.
        rewrite (open_r_regular jspath _ jsdata) by exact Hjs.
        rewrite (open_r_regular webpath _ webdata) by exact Hweb.
        rewrite Hload. run. rewrite Hfind, Hlang. cbn. tauto.
      * assert (load_json jsdata = ret j) as Hload.
        { unfold load_json. by rewrite Hj. }
        unfold read_disk_cache. run.
        rewrite (open_r_regular jspath _ jsdata) by exact Hjs.
        rewrite (open_r_regular webpath _ webdata) by exact Hweb.
        rewrite Hload. run. rewrite Hfind. cbn. tauto.
    + assert (load_json jsdata = raise ValueError) as Hload.
      { unfold load_json. by rewrite Hj. }
      unfold read_disk_cache. run.
      rewrite (open_r_regular jspath _ jsdata) by exact Hjs.
      rewrite (open_r_regular webpath _ webdata) by exact Hweb.
      rewrite Hload. run. cbn. tauto.
  - rewrite read_disk_cache_unreadable by tauto. cbn. tauto.
  - rewrite read_disk_cache_unreadable by tauto. cbn. tauto.
Qed.

(** X13: when both files open and the feed file does not hold a feed,
    [read_disk_cache] raises [ValueError]: the cached feed and document are
    as before, the language is the empty string, nothing is printed. *)
Theorem read_disk_cache_bad_feed (w : world) (jspath webpath : string)
    (jsdata webdata : option text) :
  disk w !! jspath = Some (Regular jsdata) →
  disk w !! webpath = Some (Regular webdata) →
  jsdata ≫= json_loads = None →
  read_disk_cache jspath webpath w
  = (Raise ValueError, set_cached_language "" w).
Proof.
  intros Hjs Hweb Hj.
  assert (load_json jsdata = raise ValueError) as Hload.
  { unfold load_json. by rewrite Hj. }
  unfold read_disk_cache. run.
  rewrite (open_r_regular jspath _ jsdata) by exact Hjs.
  rewrite (open_r_regular webpath _ webdata) by exact Hweb.
  rewrite Hload. run. reflexivity.
Qed.

Lemma open_w_locked path w :
  disk w !! path = Some Locked → open_w path w = (Raise IOError, w).
Proof. intros Hl. unfold open_w. run. by rewrite Hl. Qed.

(** X14: when a path does not open for writing, [write_disk_cache] raises
    [IOError] before it reads the cache: the globals are untouched and no
    request is issued.  When it is the document path that does not open,
    the feed file has been truncated by then and is left empty. *)
Theorem write_disk_cache_unwritable (w : world) (jspath webpath : string) :
  disk w !! jspath = Some Locked ∨ disk w !! webpath = Some Locked →
  ∃ w',
    write_disk_cache jspath webpath w = (Raise IOError, w')
    ∧ _cached_json w' = _cached_json w
    ∧ _cached_bs_page w' = _cached_bs_page w
    ∧ _cached_language w' = _cached_language w
    ∧ requests_log w' = requests_log w
    ∧ stdout w' = stdout w
    ∧ (disk w !! jspath = Some Locked → disk w' = disk w)
    ∧ (disk w !! jspath ≠ Some Locked →
       disk w' = <[jspath := Regular None]> (disk w)).
Proof.
  intros Hlocked. unfold write_disk_cache. run.
  assert (disk w !! jspath = Some Locked ∨ disk w !! jspath ≠ Some Locked)
    as [Hjs|Hjs].
  { destruct (disk w !! jspath) as [[|data]|]; [by left|by right..]. }
  - rewrite open_w_locked by exact Hjs. eexists. split; [reflexivity|].
    by repeat split.
  - destruct Hlocked as [?|Hweb]; [done|].
    rewrite open_w_writable by exact Hjs.
    rewrite open_w_locked.
    2:{ cbn. rewrite lookup_insert_ne; [done|]. intros ->. congruence. }
    eexists. split; [reflexivity|]. by repeat split.
Qed.

(** X15: for a document without a head, [write_disk_cache] raises
    [AttributeError] after it has truncated both files: they are left
    empty, the cache holds the page and the feed unchanged, and no marker
    was appended. *)
Theorem write_disk_cache_headless (w : world) (jspath webpath : string) :
  writable (disk w) jspath →
  writable (disk w) webpath →
  head_append [] (page_of w) = None →
  ∃ w',
    write_disk_cache jspath webpath w = (Raise AttributeError, w')
    ∧ _cached_bs_page w' = Some (page_of w)
    ∧ _cached_json w' = Some (feed_of w)
    ∧ _cached_language w' = _cached_language w
    ∧ disk w'
      = <[webpath := Regular None]> (<[jspath := Regular None]> (disk w)).
Proof.
  intros Hjs Hweb Hnone. unfold write_disk_cache. run.
  rewrite open_w_writable by exact Hjs.
  rewrite open_w_writable by (by apply writable_insert).
  match goal with
  | |- context [get_json_list _ _ ?w0] =>
      destruct (get_json_list_default w0)
        as (w1 & -> & Hj1 & Hp1 & Hl1 & Hd1 & Ho1)
  end.
  destruct (get_web_page_default w1) as (w2 & -> & Hp2 & Hj2 & Hl2 & Hd2 & Ho2).
  assert (page_of w1 = page_of w) as Hpage.
  { unfold page_of. by rewrite Hp1. }
  rewrite Hpage, (head_append_none [] _ _ Hnone).
  eexists. split; [reflexivity|].
  rewrite Hp2, Hpage, Hj2, Hj1, Hl2, Hl1, Hd2, Hd1. by repeat split.
Qed.

(** X16: a save, a change of language and a second save leave a snapshot
    that loads under the language of the first save: the second marker is
    appended after the first, and the load reads the first one. *)
Theorem load_after_resave_restores_first_language (w : world)
    (lang2 jspath webpath : string) (j : Feed.json) (page page2 : soup) :
  _cached_json w = Some j →
  _cached_bs_page w = Some page →
  _cached_language w ≠ lang2 →
  writable (disk w) jspath →
  writable (disk w) webpath →
  jspath ≠ webpath →
  BeautifulSoup (language_markup (_cached_language w))
  = [marker (_cached_language w)] →
  BeautifulSoup (language_markup lang2) = [marker lang2] →
  head_append [marker (_cached_language w); marker lang2] page = Some page2 →
  json_loads (json_dumps j) = Some j →
  BeautifulSoup_file (prettify page2) = page2 →
  find_language_comment page = None →
  mentions "="%char (_cached_language w) = false →
  ∃ w2 w3,
    save_switch_save lang2 jspath webpath w = (Return tt, w2)
    ∧ _cached_language w2 = lang2
    ∧ _cached_bs_page w2 = Some page2
    ∧ read_disk_cache jspath webpath (fresh (disk w2)) = (Return tt, w3)
    ∧ _cached_bs_page w3 = Some page2
    ∧ _cached_language w3 = _cached_language w.
Proof.
  intros Hj Hp Hl2 Hjs Hweb Hne Hparse1 Hparse2 Happ Hjson Hsoup Hnone Heq.
  assert (page_of w = page) as Hof by (unfold page_of; by rewrite Hp).
  assert (feed_of w = j) as Hfeed by (unfold feed_of; by rewrite Hj).
  destruct (head_append [marker (_cached_language w)] page) as [page1|]
    eqn:Happ1.
  2:{ by rewrite (head_append_none _ [marker (_cached_language w); marker lang2]
                    _ Happ1) in Happ. }
  pose proof (head_append_twice _ [marker lang2] _ _ Happ1) as Htwice.
  cbn [app] in Htwice. rewrite Happ in Htwice.
  destruct (write_disk_cache_run jspath webpath w page1 Hjs Hweb)
    as (w1 & Hrun1 & Hpage1 & Hj1 & Hlang1 & _ & Hd1).
  { by rewrite Hparse1, Hof. }
  assert (set_language lang2 w1 = (Return tt, set_cached_language lang2 w1))
    as Hset.
  { apply (set_language_stale w1 lang2 page1 (feed_of w)); [done..|].
    by rewrite Hlang1. }
  destruct (write_disk_cache_run jspath webpath
              (set_cached_language lang2 w1) page2)
    as (w2 & Hrun2 & Hpage2 & Hj2 & Hlang2 & _ & Hd2).
  { cbn. rewrite Hd1. by do 4 apply writable_insert. }
  { cbn. rewrite Hd1. by do 4 apply writable_insert. }
  { cbn [_cached_language set_cached_language]. rewrite Hparse2.
    unfold page_of. cbn. by rewrite Hpage1. }
  assert (load_json (Some (json_dumps j)) = ret j) as Hload.
  { unfold load_json. cbn [mbind option_bind]. by rewrite Hjson. }
  assert (find_language_comment page2
          = Some ("LANGUAGE=" ++ _cached_language w)%string) as Hfind.
  { unfold find_language_comment in *.
    destruct (head_append_comments _ _ _ Happ) as (la & lb & E & E').
    rewrite E in Hnone. apply find_app_none in Hnone as [Hla _].
    rewrite E', find_app_skip by exact Hla.
    cbn [List.flat_map comments marker app List.find].
    by rewrite marker_is_language_comment. }
  exists w2. eexists. split.
  { unfold save_switch_save. run. by rewrite Hrun1, Hset, Hrun2. }
  split; [exact Hlang2|]. split; [exact Hpage2|]. split.
  - unfold read_disk_cache. run.
    rewrite (open_r_regular jspath _ (Some (json_dumps j))).
    2:{ cbn. rewrite Hd2, lookup_insert_ne by done.
        unfold feed_of. cbn. rewrite Hj1, Hfeed. apply lookup_insert_eq. }
    rewrite (open_r_regular webpath _ (Some (prettify page2))).
    2:{ cbn. rewrite Hd2. apply lookup_insert_eq. }
    rewrite Hload. run. cbn [load_page]. rewrite Hsoup, Hfind.
    rewrite (marker_language _ Heq). reflexivity.
  - by repeat split.
Qed.

End WithCollaborators.

End SnapshotMore.

(** ** More on the merger *)

Module MergerMore.

Import SoupFacts OrderFacts CacheFacts SnapshotFacts MergerFacts.

Section WithCollaborators.

Context `{Collaborators}.

Lemma heroes_from_keys jsonObj jsonKeys : ∀ w,
  ∃ rest,
    jsonKeys = map key (fst (fst (heroes_from jsonObj jsonKeys w))) ++ rest
    ∧ (snd (fst (heroes_from jsonObj jsonKeys w)) = None → rest = [])
    ∧ Forall (from_entry jsonObj) (fst (fst (heroes_from jsonObj jsonKeys w))).
Proof.
  induction jsonKeys as [|k ks IH]; intros w; cbn [heroes_from].
  - exists []. by repeat split.
  - destruct (dict_get k jsonObj) as [e|] eqn:He.
    2:{ exists (k :: ks). by repeat split. }
    destruct (get_hero_info k w) as [[[[ic at'] fa]|ex] w'].
    2:{ exists (k :: ks). by repeat split. }
    destruct (IH w') as (rest & Hks & Hnone & Hall).
    destruct (heroes_from jsonObj ks w') as [[hs r] w''].
    exists rest. cbn [fst snd map key] in *.
    split; [by rewrite Hks at 1|]. split; [exact Hnone|].
    constructor; [|exact Hall]. exists e. by repeat split.
Qed.

Lemma after_page_cached w p :
  _cached_bs_page w = Some p → after_page w = w.
Proof.
  intros Hp. unfold after_page.
  by rewrite (get_web_page_cached _ _ _ p) by (by try left).
Qed.

(** With a page in the cache the loop of the generator changes nothing. *)
Lemma heroes_from_cached jsonObj jsonKeys w p :
  _cached_bs_page w = Some p → snd (heroes_from jsonObj jsonKeys w) = w.
Proof.
  intros Hp. induction jsonKeys as [|k ks IH]; cbn [heroes_from]; [done|].
  destruct (dict_get k jsonObj) as [e|]; [|done].
  rewrite get_hero_info_run, (after_page_cached _ _ Hp).
  destruct (hero_info_in (page_of w) k) as [[[ic at'] fa]|ex]; [|done].
  by destruct (heroes_from jsonObj ks w) as [[hs r] w''].
Qed.

Lemma heroes_from_world jsonObj jsonKeys w :
  snd (heroes_from jsonObj jsonKeys w) = w
  ∨ snd (heroes_from jsonObj jsonKeys w) = after_page w.
Proof.
  destruct jsonKeys as [|k ks]; cbn [heroes_from]; [by left|].
  destruct (dict_get k jsonObj) as [e|]; [|by left].
  rewrite get_hero_info_run. right.
  destruct (hero_info_in (page_of w) k) as [[[ic at'] fa]|ex]; [|done].
  destruct (get_web_page_default w) as (w1 & Hrun & Hp1 & _).
  assert (after_page w = w1) as -> by (unfold after_page; by rewrite Hrun).
  pose proof (heroes_from_cached jsonObj ks w1 _ Hp1) as Hsame.
  by destruct (heroes_from jsonObj ks w1) as [[hs r] w''].
Qed.

Lemma get_json_list_log w :
  ∃ a w1,
    get_json_list default_json_url "" w = (Return (feed_of w), w1)
    ∧ requests_log w1 = requests_log w ++ a
    ∧ (a = [] ∨ a = [(default_json_url ++ "?l=")%string])
    ∧ (is_Some (_cached_json w) → w1 = w)
    ∧ _cached_bs_page w1 = _cached_bs_page w
    ∧ _cached_language w1 = _cached_language w
    ∧ disk w1 = disk w
    ∧ stdout w1 = stdout w.
Proof.
  unfold feed_of. destruct (_cached_json w) as [j|] eqn:Hj.
  - exists [], w. rewrite (get_json_list_cached _ _ _ j) by (by try left).
    rewrite app_nil_r. repeat split; try done. by left.
  - eexists _, _. rewrite get_json_list_empty by done.
    repeat split; try done. right. reflexivity.
Qed.

Lemma after_page_log w :
  ∃ b,
    requests_log (after_page w) = requests_log w ++ b
    ∧ (b = [] ∨ b = [(default_url ++ "?l=")%string])
    ∧ (is_Some (_cached_bs_page w) → after_page w = w)
    ∧ _cached_language (after_page w) = _cached_language w
    ∧ disk (after_page w) = disk w
    ∧ stdout (after_page w) = stdout w.
Proof.
  unfold after_page. destruct (_cached_bs_page w) as [p|] eqn:Hp.
  - exists []. rewrite (get_web_page_cached _ _ _ p) by (by try left).
    rewrite app_nil_r. repeat split; try done. by left.
  - eexists. rewrite get_web_page_empty by done.
    repeat split; try done. right. reflexivity.
Qed.

(** X17: the records [get_all_heroes] yields are, in order, records for
    the first keys of the feed, for all its keys when no exception ends
    the iteration; each carries its key and the name, bio, roles and
    attack type of the feed entry under that key; and distinct feed keys
    give records with distinct keys. *)
Theorem get_all_heroes_follows_feed (w : world) :
  ∃ rest,
    map fst (feed_of w) = map key (fst (fst (get_all_heroes w))) ++ rest
    ∧ (snd (fst (get_all_heroes w)) = None → rest = [])
    ∧ Forall (from_entry (feed_of w)) (fst (fst (get_all_heroes w)))
    ∧ (NoDup (map fst (feed_of w)) →
       NoDup (map key (fst (fst (get_all_heroes w))))).
Proof.
  unfold get_all_heroes.
  destruct (get_json_list_default w) as (w1 & -> & _).
  destruct (heroes_from_keys (feed_of w) (map fst (feed_of w)) w1)
    as (rest & Hks & Hnone & Hall).
  exists rest. repeat split; try done.
  rewrite Hks at 1. by intros [? _]%NoDup_app.
Qed.

(** X18: however many heroes the feed has, [get_all_heroes] issues at most
    one request for the feed and one for the page, in that order, and
    none at all when the cache holds both; it never changes the recorded
    language, the files or what was printed. *)
Theorem get_all_heroes_requests (w : world) :
  ∃ extra,
    requests_log (snd (get_all_heroes w)) = requests_log w ++ extra
    ∧ sublist extra [(default_json_url ++ "?l=")%string;
                     (default_url ++ "?l=")%string]
    ∧ (warm w → snd (get_all_heroes w) = w)
    ∧ _cached_language (snd (get_all_heroes w)) = _cached_language w
    ∧ disk (snd (get_all_heroes w)) = disk w
    ∧ stdout (snd (get_all_heroes w)) = stdout w.
Proof.
  unfold get_all_heroes.
  destruct (get_json_list_log w) as (a & w1 & Hrun & Hlog1 & Ha & Hwarm1
                                     & Hp1 & Hl1 & Hd1 & Ho1).
  rewrite Hrun.
  destruct (after_page_log w1) as (b & Hlog2 & Hb & Hwarm2 & Hl2 & Hd2 & Ho2).
  destruct (heroes_from_world (feed_of w) (map fst (feed_of w)) w1)
    as [Hw|Hw]; rewrite Hw.
  - exists a. rewrite Hlog1, Hl1, Hd1, Ho1. repeat split; try done.
    + destruct Ha as [->| ->]; [apply sublist_nil_l|].
      apply sublist_skip, sublist_nil_l.
    + intros [_ Hj]. by apply Hwarm1.
  - exists (a ++ b). rewrite Hlog2, Hlog1, Hl2, Hl1, Hd2, Hd1, Ho2, Ho1.
    rewrite <- app_assoc. repeat split; try done.
    + destruct Ha as [->| ->], Hb as [->| ->]; cbn [app].
      * apply sublist_nil_l.
      * apply sublist_cons, sublist_skip, sublist_nil_l.
      * apply sublist_skip, sublist_nil_l.
      * reflexivity.
    + intros [Hp Hj]. rewrite Hwarm2 by (by rewrite Hp1); by apply Hwarm1.
Qed.

(** X19: a first matching fragment that holds an image with a source but
    lies less than two levels below an element of the page makes
    [get_hero_info] raise: [TypeError] when the fragment is a child of the
    document itself (there is no grandparent), [KeyError] when it is a
    grandchild (the grandparent is the document, which has no class). *)
Theorem get_hero_info_shallow_fragment (w : world) (k : string)
    (hp : path) (ht : node) (rest : list (path * node)) (img_src : string) :
  find_all (matches_hero k) (page_of w) = (hp, ht) :: rest →
  first_child_named "img" ht ≫= attr_of "src" = Some img_src →
  (length hp ≤ 2)%nat →
  get_hero_info k w
  = (Raise (if (length hp =? 1)%nat then TypeError else KeyError),
     after_page w).
Proof.
  intros Hfind Himg Hlen. rewrite get_hero_info_run. f_equal.
  unfold hero_info_in. rewrite Hfind.
  destruct (first_child_named "img" ht) as [img|]; [|done].
  cbn [mbind option_bind] in Himg. rewrite Himg.
  destruct (find_all_head _ _ _ _ Hfind) as [Hin _].
  destruct (descendants_sound _ _ _ Hin) as [Hne _].
  destruct hp as [|i [|j [|? ?]]]; [done|done|done|cbn in Hlen; lia].
Qed.

End WithCollaborators.

End MergerMore.

(** ** Strings, [get_languages] *)

Module TextFacts.

Import CacheFacts SnapshotFacts MergerFacts.

Lemma lstrip_first s c : first_char (lstrip s) = Some c → isspace c = false.
Proof.
  induction s as [|a t IH]; cbn [lstrip]; [done|].
  destruct (isspace a) eqn:Ha; [exact IH|]. by intros [= <-].
Qed.

Lemma rstrip_last s c : last_char (rstrip s) = Some c → isspace c = false.
Proof.
  revert c. induction s as [|a t IH]; intros c; cbn [rstrip]; [done|].
  destruct (rstrip t) as [|b t'] eqn:Ht.
  - destruct (isspace a) eqn:Ha; [done|]. by intros [= <-].
  - cbn [last_char]. apply IH.
Qed.

Lemma rstrip_first s c :
  first_char s = Some c → isspace c = false → first_char (rstrip s) = Some c.
Proof.
  destruct s as [|a t]; [done|]. intros [= ->] Hc. cbn [rstrip].
  destruct (rstrip t); [by rewrite Hc|done].
Qed.

Lemma rstrip_first_inv s c : first_char (rstrip s) = Some c → first_char s = Some c.
Proof.
  destruct s as [|a t]; [done|]. cbn [rstrip].
  destruct (rstrip t); [by destruct (isspace a)|done].
Qed.

(** A name as [get_languages] strips it neither begins nor ends with
    whitespace. *)
Lemma strip_clean s c :
  first_char (rstrip (lstrip s)) = Some c ∨ last_char (rstrip (lstrip s)) = Some c →
  isspace c = false.
Proof.
  intros [Hf|Hl]; [|by apply (rstrip_last (lstrip s))].
  by apply (lstrip_first s), rstrip_first_inv.
Qed.

Lemma comprehension_all tags :
  Forall well_formed_item tags →
  comprehension language_item tags = Return (item_of <$> tags).
Proof.
  induction 1 as [|t tags [[s Hs] [h Hh]] _ IH]; [done|].
  cbn [comprehension fmap list_fmap]. unfold language_item at 1, item_of at 1.
  by rewrite Hs, Hh, IH.
Qed.

Lemma comprehension_stops {A B} (f : A → outcome B) good bad rest e ys :
  comprehension f good = Return ys → f bad = Raise e →
  comprehension f (good ++ bad :: rest) = Raise e.
Proof.
  revert ys. induction good as [|x good IH]; intros ys Hgood Hbad.
  - cbn. by rewrite Hbad.
  - cbn [app comprehension] in *. destruct (f x) as [y|]; [|done].
    destruct (comprehension f good) as [ys'|]; [|done].
    by rewrite (IH ys' eq_refl Hbad).
Qed.

Section WithCollaborators.

Context `{Collaborators}.

Lemma get_languages_run w :
  get_languages w
  = (match comprehension language_item (lang_tags (page_of w)) with
     | Return r => Return r
     | Raise e => Raise e
     end, after_page w).
Proof.
  unfold get_languages, after_page. run.
  destruct (get_web_page_default w) as (w1 & -> & _). cbn [snd].
  by destruct (comprehension _ _).
Qed.

(** X20: when every [a] tag of class [languageItem] has a string and an
    [href], [get_languages] returns one pair per such tag, in page order:
    the tag's string without leading and trailing whitespace, and its
    [href] without its first two characters. *)
Theorem get_languages_lists_items (w : world) :
  Forall well_formed_item (lang_tags (page_of w)) →
  ∃ langs,
    get_languages w = (Return langs, after_page w)
    ∧ langs = item_of <$> lang_tags (page_of w)
    ∧ length langs = length (lang_tags (page_of w))
    ∧ Forall (λ hp, ∀ c, first_char (fst hp) = Some c
                         ∨ last_char (fst hp) = Some c →
                         isspace c = false) langs.
Proof.
  intros Hall. exists (item_of <$> lang_tags (page_of w)).
  rewrite get_languages_run, (comprehension_all _ Hall).
  repeat split; [by rewrite length_fmap|].
  apply Forall_fmap, Forall_forall. intros t _ c. apply strip_clean.
Qed.

(** X21: the first tag of class [languageItem] that lacks a string or an
    [href] ends [get_languages] with an exception, whatever the tags
    before it gave: [AttributeError] when it has no string, [KeyError]
    when it has a string and no [href]. *)
Theorem get_languages_bad_item (w : world) (good : list node) (bad : node)
    (rest : list node) :
  lang_tags (page_of w) = good ++ bad :: rest →
  Forall well_formed_item good →
  string_of bad = None ∨ attr_of "href" bad = None →
  get_languages w
  = (Raise match string_of bad with
           | None => AttributeError
           | Some _ => KeyError
           end, after_page w).
Proof.
  intros Htags Hgood Hbad. rewrite get_languages_run, Htags.
  rewrite (comprehension_stops language_item good bad rest
             match string_of bad with
             | None => AttributeError
             | Some _ => KeyError
             end (item_of <$> good)); [done|by apply comprehension_all|].
  unfold language_item. destruct (string_of bad) as [s|]; [|done].
  destruct Hbad as [?|Hh]; [done|]. by rewrite Hh.
Qed.

End WithCollaborators.

End TextFacts.

(** ** The interactive browser *)

(** Evaluates the membership tests of a command word in the command
    lists. *)
Ltac decide_commands :=
  repeat match goal with
         | |- context [bool_decide (?a ∈ ?l)] =>
             let b := eval vm_compute in (bool_decide (a ∈ l)) in
             change (bool_decide (a ∈ l)) with b
         end;
  cbn beta iota.

Module ShellFacts.

Import FilterFacts SnapshotFacts.

Lemma lstrip_blank s : lstrip s = "" → split_ws s = [].
Proof.
  induction s as [|c t IH]; [done|]. cbn [lstrip split_ws].
  destruct (isspace c); [exact IH|done].
Qed.

Lemma replace_keeps_equals t :
  mentions "="%char (replace_char "_" " " t) = mentions "="%char t.
Proof.
  induction t as [|c t IH]; [done|]. cbn [replace_char mentions].
  rewrite IH. destruct (Ascii.eqb c "_") eqn:Hc; [|done].
  by apply Ascii.eqb_eq in Hc as ->.
Qed.

Lemma replace_clean t : mentions "_"%char (replace_char "_" " " t) = false.
Proof.
  induction t as [|c t IH]; [done|]. cbn [replace_char mentions].
  rewrite IH. by destruct (Ascii.eqb c "_") eqn:Hc; [|rewrite Hc].
Qed.

Lemma split_on_clean c sep s :
  mentions c s = false →
  Forall (λ p, mentions c p = false) (split_on sep s).
Proof.
  induction s as [|a t IH]; cbn [mentions split_on]; [by repeat constructor|].
  intros [Ha Ht]%orb_false_iff. specialize (IH Ht).
  destruct (Ascii.eqb a sep); [by constructor|].
  destruct (split_on sep t) as [|x r]; [by repeat constructor; cbn; rewrite Ha|].
  apply Forall_cons in IH as [Hx Hr]. constructor; [|done].
  cbn [mentions]. by rewrite Ha, Hx.
Qed.

Lemma dict_set_clean k v args :
  clean (k, v) → Forall clean args → Forall clean (dict_set k v args).
Proof.
  intros Hkv. induction 1 as [|[k' v'] args Hx Hargs IH]; cbn [dict_set].
  - constructor; [exact Hkv|constructor].
  - case_bool_decide; constructor; done.
Qed.

Lemma find_args_clean tokens : ∀ args found,
  Forall (λ t, mentions "_"%char t = false) tokens →
  Forall clean args →
  find_args tokens args = Return found → Forall clean found.
Proof.
  induction tokens as [|t tokens IH]; intros args found Htok Hargs;
    cbn [find_args]; [by intros [= <-]|].
  apply Forall_cons in Htok as [Ht Htok].
  pose proof (split_on_clean "_"%char "="%char t Ht) as Hparts.
  destruct (split_on "="%char t !! 0%nat) as [k|] eqn:Hk; [|done].
  destruct (split_on "="%char t !! 1%nat) as [v|] eqn:Hv; [|done].
  apply IH; [done|]. apply dict_set_clean; [|done]. split; cbn [fst snd].
  - by apply (proj1 (Forall_lookup _ _) Hparts 0%nat).
  - by apply (proj1 (Forall_lookup _ _) Hparts 1%nat).
Qed.

Lemma find_tokens_clean line :
  Forall (λ t, mentions "_"%char t = false) (find_tokens line).
Proof.
  unfold find_tokens. apply Forall_fmap, Forall_forall. intros t _.
  apply replace_clean.
Qed.

Lemma find_args_only_IndexError tokens : ∀ args e,
  find_args tokens args = Raise e → e = IndexError.
Proof.
  induction tokens as [|t tokens IH]; intros args e; cbn [find_args];
    [done|].
  destruct (split_on "="%char t !! 0%nat); [|by intros [= <-]].
  destruct (split_on "="%char t !! 1%nat); [apply IH|by intros [= <-]].
Qed.

Lemma find_args_bad_token tokens : ∀ args t,
  t ∈ tokens → mentions "="%char t = false →
  find_args tokens args = Raise IndexError.
Proof.
  induction tokens as [|t0 tokens IH]; intros args t Hin Ht;
    [by apply elem_of_nil in Hin|].
  cbn [find_args]. apply elem_of_cons in Hin as [<-|Hin].
  - rewrite (split_on_absent _ _ Ht). reflexivity.
  - destruct (split_on "="%char t0 !! 0%nat); [|done].
    destruct (split_on "="%char t0 !! 1%nat); [|done].
    by apply (IH _ t).
Qed.

Lemma mentions_eq c s s' : mentions c s = true → mentions c s' = false → s' ≠ s.
Proof. intros Hs Hs' ->. congruence. Qed.

Section WithCollaborators.

Context `{Collaborators}.

(** X22: a line of nothing but whitespace, the empty line included, makes
    the loop body raise [IndexError] at [line.split()[0]]; the [try] of
    the browser does not catch it, so the browser prints its closing
    empty line and ends with that exception, the lines after it unread. *)
Theorem blank_line_ends_browser (heroes : list Hero) (line : string)
    (rest : list string) (w : world) :
  lstrip line = "" →
  handle heroes line w = (Raise IndexError, w)
  ∧ shell heroes (line :: rest) w = (Raise IndexError, print_line "" w).
Proof.
  intros Hblank.
  assert (handle heroes line w = (Raise IndexError, w)) as Hhandle.
  { unfold handle. by rewrite (lstrip_blank _ Hblank). }
  split; [exact Hhandle|]. unfold shell. cbn [browse].
  decide_commands. run. by rewrite Hhandle.
Qed.

(** X23: a [find] line with a token that has no [=] (an empty token
    between two spaces or after a trailing space included) raises
    [IndexError] before anything is printed. *)
Theorem find_without_equals_raises (heroes : list Hero) (line cmd t : string)
    (words : list string) (w : world) :
  split_ws line = cmd :: words →
  cmd ∈ ["find"; "search"; "FIND"; "SEARCH"; "f"] →
  t ∈ tail (split_on " "%char line) →
  mentions "="%char t = false →
  handle heroes line w = (Raise IndexError, w).
Proof.
  intros Hsplit Hcmd Ht Hno.
  assert (find_args (find_tokens line) [] = Raise IndexError) as Hargs.
  { apply (find_args_bad_token _ _ (replace_char "_" " " t)).
    - unfold find_tokens. by apply list_elem_of_fmap_2.
    - by rewrite replace_keeps_equals. }
  unfold handle. rewrite Hsplit.
  repeat (apply elem_of_cons in Hcmd as [->|Hcmd]);
    [..|by apply elem_of_nil in Hcmd];
    decide_commands; by rewrite Hargs.
Qed.

(** X24: the [find] command replaces every underscore of its tokens by a
    space before it reads them, so no keyword or value it passes to
    [find_heroes] has an underscore; a name criterion therefore never
    equals a key that has one. *)
Theorem find_arguments_have_no_underscore (line : string)
    (args : list (string * string)) :
  find_args (find_tokens line) [] = Return args →
  Forall clean args
  ∧ ∀ v h, dict_get "name" args = Some v →
           mentions "_"%char (key h) = true → v ≠ key h.
Proof.
  intros Hargs.
  assert (Forall clean args) as Hclean.
  { apply (find_args_clean _ [] args (find_tokens_clean line)); [|done].
    constructor. }
  split; [exact Hclean|]. intros v h Hv Hkey.
  apply (mentions_eq "_"%char); [done|].
  clear Hargs. induction Hclean as [|[k' v'] args [_ Hx] _ IH]; [done|].
  cbn [dict_get] in Hv. case_bool_decide; [|by apply IH].
  by injection Hv as <-.
Qed.

Lemma filter_none (P : Hero → Prop) `{!∀ h, Decision (P h)} l :
  Forall (λ h, ¬ P h) l → filter P l = [].
Proof.
  induction 1 as [|h l Hh _ IH]; [done|].
  by rewrite filter_cons, decide_False.
Qed.

(** X25: [bio] and [info] with a name that is not empty and is neither the
    name nor the key of a hero print the line [Hero ... not found.] and
    return; the name asked for is the words after the command joined by
    single spaces. *)
Theorem unknown_hero_not_found (heroes : list Hero) (line cmd : string)
    (words : list string) (w : world) :
  split_ws line = cmd :: words →
  cmd ∈ ["bio"; "BIO"; "b"; "info"; "INFO"; "i"; "about"] →
  String.concat " " words ≠ "" →
  Forall (λ h, name h ≠ String.concat " " words
               ∧ key h ≠ String.concat " " words) heroes →
  handle heroes line w = (Return tt, print_line (not_found words) w).
Proof.
  intros Hsplit Hcmd Hq Hnone.
  assert (find_first_hero (String.concat " " words) None None None heroes
          = None) as Hfirst.
  { unfold find_first_hero. rewrite find_heroes_filter, filter_none; [done|].
    apply (Forall_impl _ _ _ Hnone). intros h [Hn Hk] ([?|[?|?]] & _); done. }
  unfold handle. rewrite Hsplit.
  repeat (apply elem_of_cons in Hcmd as [->|Hcmd]);
    [..|by apply elem_of_nil in Hcmd];
    decide_commands; by rewrite Hfirst.
Qed.

Lemma handle_exit heroes x w :
  x ∈ ["exit"; "quit"] → handle heroes x w = (Return tt, w).
Proof.
  intros Hx. repeat (apply elem_of_cons in Hx as [->|Hx]);
    [..|by apply elem_of_nil in Hx]; reflexivity.
Qed.

Lemma browse_exit heroes x after : ∀ before line w,
  x ∈ ["exit"; "quit"] →
  browse heroes (before ++ x :: after) line w
  = browse heroes (before ++ [x]) line w.
Proof.
  intros before line w Hx. revert line w.
  induction before as [|l before IH]; intros line w; cbn [app browse].
  - destruct (bool_decide (line ∈ ["exit"; "quit"])); [done|]. run.
    rewrite (handle_exit _ _ _ Hx). destruct after; cbn [browse];
      by rewrite bool_decide_eq_true_2.
  - destruct (bool_decide (line ∈ ["exit"; "quit"])); [done|]. run.
    destruct (handle heroes l w) as [[[]|e] w']; [apply IH|done].
Qed.

(** X26: the browser stops at the first line that is [exit] or [quit]:
    the lines after it are never read, so they change nothing. *)
Theorem exit_ends_browser (heroes : list Hero) (before after : list string)
    (x : string) (w : world) :
  x ∈ ["exit"; "quit"] →
  shell heroes (before ++ x :: after) w = shell heroes (before ++ [x]) w.
Proof.
  intros Hx. unfold shell. by rewrite (browse_exit _ _ after before "" w Hx).
Qed.

Lemma prints_only_refl w : prints_only w w.
Proof. exists []. rewrite app_nil_r. by destruct w. Qed.

Lemma prints_only_trans w1 w2 w3 :
  prints_only w1 w2 → prints_only w2 w3 → prints_only w1 w3.
Proof.
  intros [o1 ->] [o2 ->]. exists (o1 ++ o2). cbn. by rewrite app_assoc.
Qed.

Lemma printer_ret {A} (a : A) : printer (ret a).
Proof. intros w. apply prints_only_refl. Qed.

Lemma printer_raise {A} e : printer (raise (A := A) e).
Proof. intros w. apply prints_only_refl. Qed.

Lemma printer_print s : printer (print s).
Proof. intros w. by exists [s]. Qed.

Lemma printer_bind {A B} (m : M A) (k : A → M B) :
  printer m → (∀ a, printer (k a)) → printer (m ≫= k).
Proof.
  intros Hm Hk w. specialize (Hm w). run.
  destruct (m w) as [[a|e] w1]; cbn [snd] in *; [|done].
  apply (prints_only_trans _ w1); [done|apply Hk].
Qed.

Lemma printer_print_all l : printer (print_all l).
Proof.
  induction l as [|s l IH]; cbn [print_all]; [apply printer_ret|].
  apply printer_bind; [apply printer_print|done].
Qed.

Lemma printer_handle heroes line : printer (handle heroes line).
Proof.
  unfold handle. destruct (split_ws line) as [|cmd words];
    [apply printer_raise|].
  repeat match goal with
         | |- printer (if ?b then _ else _) => destruct b
         | |- printer (match ?x with _ => _ end) => destruct x
         | |- printer (_ ≫= _) => apply printer_bind; [|intros ?]
         | |- printer (print_all _) => apply printer_print_all
         | |- printer (print _) => apply printer_print
         | |- printer (ret _) => apply printer_ret
         | |- printer (raise _) => apply printer_raise
         end.
Qed.

Lemma printer_browse heroes stdin : ∀ line, printer (browse heroes stdin line).
Proof.
  induction stdin as [|l stdin IH]; intros line; cbn [browse];
    destruct (bool_decide _); try apply printer_ret.
  apply printer_bind; [apply printer_handle|done].
Qed.

(** X27: the browser only prints: whatever the lines read, the cache, its
    language, the files and the request log are as before, and the last
    line printed is the empty line of the [finally]. *)
Theorem browser_only_prints (heroes : list Hero) (stdin : list string)
    (w : world) :
  prints_only w (snd (shell heroes stdin w))
  ∧ last (stdout (snd (shell heroes stdin w))) = Some "".
Proof.
  unfold shell. pose proof (printer_browse heroes stdin "" w) as Hp.
  destruct (browse heroes stdin "" w) as [r w']. cbn [snd] in *. split.
  - apply (prints_only_trans _ w'); [done|]. by exists [""].
  - cbn. apply last_snoc.
Qed.

End WithCollaborators.

End ShellFacts.

(** ** The program *)

Module MainFacts.

Import CacheFacts SnapshotFacts MergerFacts MergerMore TextFacts ShellFacts.
Import SnapshotMore.

Lemma after_flag_last flag pre :
  flag ∉ pre → after_flag flag (pre ++ [flag]) = None.
Proof.
  induction pre as [|a pre IH]; intros Hpre; cbn [app after_flag].
  - by rewrite bool_decide_eq_true_2.
  - rewrite bool_decide_eq_false_2 by (intros ->; apply Hpre; by left).
    apply IH. intros ?. apply Hpre. by right.
Qed.

Section WithCollaborators.

Context `{Collaborators}.

(** X28: [-l] as the last argument, with no language after it, ends the
    program with an [IndexError] that nothing catches, before any request
    and before anything is printed. *)
Theorem language_flag_without_value (pre stdin : list string) (w : world) :
  "-h" ∉ pre → "--help" ∉ pre → "-r" ∉ pre → "-L" ∉ pre → "-l" ∉ pre →
  main (pre ++ ["-l"]) stdin w = (Uncaught IndexError, w).
Proof.
  intros Hh Hhelp Hr HL Hl. unfold main, step.
  rewrite !bool_decide_eq_false_2
    by (rewrite elem_of_app, list_elem_of_singleton; intros [?|[=]]; done).
  cbn [orb]. rewrite bool_decide_eq_true_2
    by (apply elem_of_app; right; by left).
  by rewrite (after_flag_last _ _ Hl).
Qed.

Lemma warm_cached w :
  warm w → ∃ p j, _cached_bs_page w = Some p ∧ _cached_json w = Some j.
Proof. intros [[p Hp] [j Hj]]. by exists p, j. Qed.

Lemma set_language_warm lang w :
  warm w →
  warm (snd (set_language lang w))
  ∧ requests_log (snd (set_language lang w)) = requests_log w.
Proof.
  intros Hw. destruct (warm_cached _ Hw) as (p & j & Hp & Hj).
  destruct (decide (_cached_language w = lang)) as [<-|Hl].
  - by rewrite set_language_same.
  - by rewrite (set_language_stale w lang p j).
Qed.

Lemma write_disk_cache_warm jspath webpath w :
  warm w →
  requests_log (snd (write_disk_cache jspath webpath w)) = requests_log w.
Proof.
  intros Hw. destruct (warm_cached _ Hw) as (p & j & Hp & Hj).
  unfold write_disk_cache. run.
  assert (∀ path w0, (∃ w1, open_w path w0 = (Raise IOError, w0) ∧ w1 = w0)
                     ∨ open_w path w0
                       = (Return tt,
                          set_disk (<[path := Regular None]> (disk w0)) w0))
    as Hopen.
  { intros path w0. unfold open_w. run.
    destruct (disk w0 !! path) as [[|data]|]; eauto. }
  destruct (Hopen jspath w) as [(? & -> & _)| ->]; [done|].
  match goal with
  | |- context [open_w webpath ?w0] =>
      destruct (Hopen webpath w0) as [(? & -> & _)| ->]; [done|]
  end.
  rewrite (get_json_list_cached _ _ _ j) by (by try left).
  rewrite (get_web_page_cached _ _ _ p) by (by try left).
  cbn [_cached_language set_disk].
  by destruct (head_append _ p).
Qed.

Lemma get_languages_warm w :
  warm w → snd (get_languages w) = w.
Proof.
  intros Hw. destruct (warm_cached _ Hw) as (p & j & Hp & Hj).
  rewrite get_languages_run. cbn [snd]. by apply (after_page_cached _ p).
Qed.

Lemma get_all_heroes_warm w : warm w → snd (get_all_heroes w) = w.
Proof.
  intros Hw. destruct (warm_cached _ Hw) as (p & j & Hp & Hj).
  unfold get_all_heroes.
  rewrite (get_json_list_cached _ _ _ j) by (by try left).
  by apply (heroes_from_cached _ _ _ p).
Qed.

Lemma prints_only_log w w' :
  prints_only w w' → requests_log w' = requests_log w.
Proof. by intros [out ->]. Qed.

Lemma read_disk_cache_warm w jspath webpath jsdata webdata j l :
  disk w !! jspath = Some (Regular jsdata) →
  disk w !! webpath = Some (Regular webdata) →
  jsdata ≫= json_loads = Some j →
  find_language_comment (load_page webdata) = Some l →
  fst (read_disk_cache jspath webpath w) = Return tt
  ∧ warm (snd (read_disk_cache jspath webpath w))
  ∧ requests_log (snd (read_disk_cache jspath webpath w)) = requests_log w.
Proof.
  intros Hjs Hweb Hj Hfind.
  assert (is_language_comment l = true) as Hl.
  { unfold find_language_comment in Hfind. by apply find_some in Hfind as [_ ?]. }
  destruct (language_comment_field l Hl) as (rest & lang & _ & _ & Hlang).
  assert (load_json jsdata = ret j) as Hload.
  { unfold load_json. by rewrite Hj. }
  unfold read_disk_cache. run.
  rewrite (open_r_regular jspath _ jsdata) by exact Hjs.
  rewrite (open_r_regular webpath _ webdata) by exact Hweb.
  rewrite Hload. run. rewrite Hfind, Hlang. cbn.
  repeat split; eauto.
Qed.

Lemma printer_stays_warm {A} (m : M A) : printer m → stays_warm m.
Proof. intros Hm w Hw. by destruct (Hm w) as [out ->]. Qed.

Lemma stays_warm_bind {A B} (m : M A) (k : A → M B) :
  stays_warm m → (∀ a, stays_warm (k a)) → stays_warm (m ≫= k).
Proof.
  intros Hm Hk w Hw. destruct (Hm w Hw) as [Hw1 Hl1]. run.
  destruct (m w) as [[a|e] w1]; cbn [snd] in *; [|done].
  destruct (Hk a w1 Hw1) as [Hw2 Hl2]. split; [done|congruence].
Qed.

Lemma stays_warm_shell heroes stdin : stays_warm (shell heroes stdin).
Proof.
  apply printer_stays_warm. intros w. unfold shell.
  pose proof (printer_browse heroes stdin "" w) as Hp.
  destruct (browse heroes stdin "" w) as [r w']. cbn [snd] in *.
  apply (prints_only_trans _ w'); [done|]. by exists [""].
Qed.

Lemma stays_warm_set_language lang : stays_warm (set_language lang).
Proof. intros w Hw. by apply set_language_warm. Qed.

Lemma stays_warm_get_languages : stays_warm get_languages.
Proof. intros w Hw. by rewrite (get_languages_warm _ Hw). Qed.

Lemma quiet_step {A} (m : M A) (k : A → world → ending * world) :
  stays_warm m → (∀ a, quiet (k a)) → quiet (step m k).
Proof.
  intros Hm Hk w Hw. destruct (Hm w Hw) as [Hw1 Hl1]. unfold step.
  destruct (m w) as [[a|e] w1]; cbn [snd] in *; [|done].
  by rewrite (Hk a w1 Hw1).
Qed.

Lemma quiet_offline_step {A} (m : M A) e :
  (∀ w, warm w → requests_log (snd (m w)) = requests_log w) →
  quiet (step m (λ _ w, (e, w))).
Proof.
  intros Hm w Hw. specialize (Hm w Hw). unfold step.
  by destruct (m w) as [[a|e'] w1].
Qed.

Lemma quiet_browse stdin : quiet (λ w,
  match get_all_heroes w with
  | ((_, Some e), w') => (Uncaught e, w')
  | ((heroes, None), w') =>
      step (print "Interactive hero browser!";;
            print "Type 'exit' to exit.";;
            shell heroes stdin) (λ _ w, (Finished, w)) w'
  end).
Proof.
  intros w Hw. pose proof (get_all_heroes_warm _ Hw) as Hsame.
  destruct (get_all_heroes w) as [[heroes [e|]] w']; cbn [snd] in Hsame;
    subst w'; [done|].
  apply quiet_step; [|done..].
  repeat (apply stays_warm_bind; [|intros ?]);
    try apply stays_warm_shell;
    apply printer_stays_warm, printer_print.
Qed.

(** What the program does after the test of [-h] and the [-r] step. *)
Lemma quiet_rest argv stdin : quiet (λ w,
  (if bool_decide ("-L" ∈ argv) then
      step (print "Acceptable languages:") (λ _,
      step get_languages (λ langs,
      step (print_all ((λ hp, fst hp ++ tab ++ "-" ++ tab ++ snd hp)%string
                       <$> langs)) (λ _ w, (Exited, w))))
    else
      step (if bool_decide ("-l" ∈ argv)
            then match after_flag "-l" argv with
                 | Some lang => set_language lang
                 | None => raise IndexError
                 end
            else ret tt) (λ _,
      if bool_decide ("-w" ∈ argv) then
        step (write_disk_cache default_jspath default_webpath)
             (λ _ w, (Exited, w))
      else
        λ w, match get_all_heroes w with
             | ((_, Some e), w') => (Uncaught e, w')
             | ((heroes, None), w') =>
                 step (print "Interactive hero browser!";;
                       print "Type 'exit' to exit.";;
                       shell heroes stdin) (λ _ w, (Finished, w)) w'
             end)) w).
Proof.
  destruct (bool_decide ("-L" ∈ argv)).
  - apply quiet_step; [apply printer_stays_warm, printer_print|intros _].
    apply quiet_step; [apply stays_warm_get_languages|intros langs].
    apply quiet_step; [apply printer_stays_warm, printer_print_all|done].
  - apply quiet_step.
    + destruct (bool_decide ("-l" ∈ argv));
        [|apply printer_stays_warm, printer_ret].
      destruct (after_flag "-l" argv);
        [apply stays_warm_set_language|apply printer_stays_warm, printer_raise].
    + intros _. destruct (bool_decide ("-w" ∈ argv)).
      * apply quiet_offline_step. intros w. apply write_disk_cache_warm.
      * apply quiet_browse.
Qed.

(** X29: started with [-r] and a snapshot that loads, the program issues
    no request at all, whatever its other arguments and whatever is typed:
    every later step finds the page and the feed in the cache, a [-l]
    language included, which changes the recorded language and nothing
    else. *)
Theorem snapshot_run_stays_offline (argv stdin : list string) (w : world)
    (jsdata webdata : option text) (j : Feed.json) (l : string) :
  "-r" ∈ argv →
  disk w !! default_jspath = Some (Regular jsdata) →
  disk w !! default_webpath = Some (Regular webdata) →
  jsdata ≫= json_loads = Some j →
  find_language_comment (load_page webdata) = Some l →
  requests_log (snd (main argv stdin w)) = requests_log w.
Proof.
  intros Hr Hjs Hweb Hj Hfind. unfold main.
  destruct (bool_decide ("-h" ∈ argv) || bool_decide ("--help" ∈ argv));
    [done|].
  rewrite (bool_decide_eq_true_2 _ Hr).
  destruct (read_disk_cache_warm w _ _ _ _ _ _ Hjs Hweb Hj Hfind)
    as (Hret & Hwarm & Hlog).
  unfold step at 1.
  destruct (read_disk_cache default_jspath default_webpath w) as [r w1].
  cbn [fst snd] in *. subst r. rewrite <- Hlog.
  apply (quiet_rest argv stdin w1 Hwarm).
Qed.

End WithCollaborators.

End MainFacts.
